(** * F1 Pulse: the client-side resolvers and the comparison view-model

    A shallow embedding of the pure logic of the front-end:

    - [getRaceCoordinates] and its helper [findKey]
      (app/components/RaceMap.tsx),
    - [formatDriverName] of the module the pages import as [utils/images],
    - [scatterData] and [comparisonTable] of the component [ComparePage],

    followed by the properties that the specification states about them. *)

From Stdlib Require Import String Ascii Bool List ZArith NArith QArith.
From Stdlib Require Import Sorted Permutation Lia.
From Stdlib Require Import Rdefinitions R_sqrt Qreals.
Import ListNotations.

(** ** JavaScript built-ins used by the program *)

Module JS.

(** A JavaScript string is a sequence of UTF-16 code units. *)
Definition jsstring : Type := list N.

(** String literals of the source, written with their ASCII characters. *)
Definition str (s : string) : jsstring :=
  map N_of_ascii (list_ascii_of_string s).
Arguments str s%_string.

(** [s === t] on strings. *)
Fixpoint eqb (s t : jsstring) : bool :=
  match s, t with
  | [], [] => true
  | c :: s', d :: t' => (c =? d)%N && eqb s' t'
  | _, _ => false
  end.

(** [!s] on a string: only the empty string is falsy. *)
Definition isEmpty (s : jsstring) : bool :=
  match s with
  | [] => true
  | _ :: _ => false
  end.

(** [s.startsWith(t)], the one-position test underlying [includes]. *)
Fixpoint startsWith (s t : jsstring) : bool :=
  match t, s with
  | [], _ => true
  | _ :: _, [] => false
  | d :: t', c :: s' => (c =? d)%N && startsWith s' t'
  end.

(** [s.includes(t)]: [t] occurs in [s] as a contiguous run of code units. *)
Fixpoint includes (s t : jsstring) : bool :=
  startsWith s t ||
  match s with
  | [] => false
  | _ :: s' => includes s' t
  end.

(** Code units below 256 are the Latin-1 characters. *)
Definition isLatin1 (s : jsstring) : bool :=
  forallb (fun c => (c <? 256)%N) s.

(** Lower-casing of one Latin-1 code unit: [A-Z], [U+00C0]-[U+00DE] except
    the multiplication sign [U+00D7]. *)
Definition lowerUnit (c : N) : N :=
  if ((65 <=? c) && (c <=? 90) ||
      (192 <=? c) && (c <=? 222) && negb (c =? 215))%N
  then (c + 32)%N else c.

(** [String.prototype.toLowerCase] restricted to Latin-1 strings. *)
Definition toLowerCaseLatin1 (s : jsstring) : jsstring := map lowerUnit s.

(** [\w] of a regular expression without the [u] and [i] flags:
    [[A-Za-z0-9_]]. *)
Definition isWordChar (c : N) : bool :=
  ((48 <=? c) && (c <=? 57) || (65 <=? c) && (c <=? 90) ||
   (c =? 95) || (97 <=? c) && (c <=? 122))%N.

(** [l.toUpperCase()] for a one-character string [l] matched by [\w]. *)
Definition upperUnit (c : N) : N :=
  if ((97 <=? c) && (c <=? 122))%N then (c - 32)%N else c.

(** [xs.filter(item => item !== null)]. *)
Fixpoint filterNonNull {X : Type} (xs : list (option X)) : list X :=
  match xs with
  | [] => []
  | None :: xs' => filterNonNull xs'
  | Some x :: xs' => x :: filterNonNull xs'
  end.

(** [Array.prototype.sort(compareFn)].  The sort is stable (ES2019), so for a
    comparator that is a total preorder the result is the unique stable
    arrangement; stable insertion computes it.  [x] precedes the elements of
    [l] in the input, hence it stays in front of [y] when
    [compareFn x y <= 0]. *)
Section Sort.
Variable X : Type.
Variable compareFn : X -> X -> Z.

Fixpoint insert (x : X) (l : list X) : list X :=
  match l with
  | [] => [x]
  | y :: l' => if (compareFn x y <=? 0)%Z then x :: l else y :: insert x l'
  end.

Definition sort (l : list X) : list X := fold_right insert [] l.
End Sort.
Arguments insert {X} compareFn x l.
Arguments sort {X} compareFn l.

(** The properties every ordinary object inherits from [Object.prototype]
    (ECMAScript 20.1.3 and Annex B.2.2): functions, and for [__proto__] the
    prototype object itself. *)
Definition Object_prototype_members : list jsstring :=
  [ str "constructor"; str "hasOwnProperty"; str "isPrototypeOf";
    str "propertyIsEnumerable"; str "toLocaleString"; str "toString";
    str "valueOf"; str "__proto__"; str "__defineGetter__";
    str "__defineSetter__"; str "__lookupGetter__"; str "__lookupSetter__" ].

End JS.

Import JS.

(** ** app/components/RaceMap.tsx *)

(** [interface RaceInfo]. *)
Record RaceInfo : Type := mkRaceInfo {
  raceId : Z;
  label : jsstring;
  name : jsstring;
  circuit : jsstring;
  location : jsstring;
  country : jsstring;
  round : Z;
  date : jsstring;
  year : Z
}.

(** A [[number, number]] literal of the source: latitude and longitude.  The
    decimal literals are kept as the rationals they denote. *)
Definition Coordinates : Type := (Q * Q)%type.
Definition coords (lat lng : Q) : Coordinates := (lat, lng).

(** [Record<string, [number, number]>] built by an object literal: the own
    properties in the order of the literal, which is the order
    [Object.entries] enumerates (no key is an array index, no key occurs
    twice). *)
Definition CoordinateTable : Type := list (jsstring * Coordinates).

(** F1 circuit coordinates, with the name variations of each circuit. *)
Definition CIRCUIT_COORDINATES : CoordinateTable :=
  [
    (* Bahrain *)
    (str "Bahrain International Circuit", coords 26.0325 50.510556);
    (str "Bahrain", coords 26.0325 50.510556);
    (str "Sakhir", coords 26.0325 50.510556);
    (* Saudi Arabia *)
    (str "Jeddah Corniche Circuit", coords 21.6319 39.1044);
    (str "Saudi Arabia", coords 21.6319 39.1044);
    (str "Jeddah", coords 21.6319 39.1044);
    (* Australia *)
    (str "Albert Park Circuit", coords (-37.849722) 144.968333);
    (str "Australia", coords (-37.849722) 144.968333);
    (str "Melbourne", coords (-37.849722) 144.968333);
    (* China *)
    (str "Shanghai International Circuit", coords 31.3389 121.2200);
    (str "China", coords 31.3389 121.2200);
    (str "Shanghai", coords 31.3389 121.2200);
    (* Japan *)
    (str "Suzuka International Racing Course", coords 34.843056 136.540556);
    (str "Japan", coords 34.843056 136.540556);
    (str "Suzuka", coords 34.843056 136.540556);
    (* Miami *)
    (str "Miami International Autodrome", coords 25.9581 (-80.2389));
    (str "Miami", coords 25.9581 (-80.2389));
    (* Imola (Italy) *)
    (str "Autodromo Enzo e Dino Ferrari", coords 44.3439 11.7167);
    (str "Imola", coords 44.3439 11.7167);
    (str "Emilia Romagna", coords 44.3439 11.7167);
    (* Monaco *)
    (str "Circuit de Monaco", coords 43.734722 7.420556);
    (str "Monaco", coords 43.734722 7.420556);
    (* Spain *)
    (str "Circuit de Barcelona-Catalunya", coords 41.57 2.261111);
    (str "Spain", coords 41.57 2.261111);
    (str "Barcelona", coords 41.57 2.261111);
    (str "Catalunya", coords 41.57 2.261111);
    (* Canada *)
    (str "Circuit Gilles-Villeneuve", coords 45.505833 (-73.526667));
    (str "Canada", coords 45.505833 (-73.526667));
    (str "Montreal", coords 45.505833 (-73.526667));
    (* Austria *)
    (str "Red Bull Ring", coords 47.2197 14.7647);
    (str "Austria", coords 47.2197 14.7647);
    (str "Spielberg", coords 47.2197 14.7647);
    (* United Kingdom *)
    (str "Silverstone Circuit", coords 52.071 (-1.016));
    (str "United Kingdom", coords 52.071 (-1.016));
    (str "Silverstone", coords 52.071 (-1.016));
    (str "Great Britain", coords 52.071 (-1.016));
    (* Hungary *)
    (str "Hungaroring", coords 47.578889 19.248611);
    (str "Hungary", coords 47.578889 19.248611);
    (str "Budapest", coords 47.578889 19.248611);
    (* Belgium *)
    (str "Circuit de Spa-Francorchamps", coords 50.437222 5.971389);
    (str "Belgium", coords 50.437222 5.971389);
    (str "Spa", coords 50.437222 5.971389);
    (str "Spa-Francorchamps", coords 50.437222 5.971389);
    (* Netherlands *)
    (str "Circuit Zandvoort", coords 52.3888 4.5409);
    (str "Netherlands", coords 52.3888 4.5409);
    (str "Zandvoort", coords 52.3888 4.5409);
    (str "Dutch", coords 52.3888 4.5409);
    (* Italy (Monza) *)
    (str "Autodromo Nazionale Monza", coords 45.620556 9.289444);
    (str "Monza", coords 45.620556 9.289444);
    (str "Italy (Monza)", coords 45.620556 9.289444);
    (* Azerbaijan *)
    (str "Baku City Circuit", coords 40.3725 49.8533);
    (str "Azerbaijan", coords 40.3725 49.8533);
    (str "Baku", coords 40.3725 49.8533);
    (* Singapore *)
    (str "Marina Bay Street Circuit", coords 1.291403 103.864147);
    (str "Singapore", coords 1.291403 103.864147);
    (str "Marina Bay", coords 1.291403 103.864147);
    (* United States (COTA - Austin) *)
    (str "Circuit of the Americas", coords 30.1328 (-97.6411));
    (str "COTA", coords 30.1328 (-97.6411));
    (str "Austin", coords 30.1328 (-97.6411));
    (str "Texas", coords 30.1328 (-97.6411));
    (* United States (Las Vegas) *)
    (str "Las Vegas Strip Circuit", coords 36.1017 (-115.1605));
    (str "Las Vegas", coords 36.1017 (-115.1605));
    (str "Vegas", coords 36.1017 (-115.1605));
    (str "Nevada", coords 36.1017 (-115.1605));
    (* Mexico *)
    (str "Aut" ++ [243%N] ++ str "dromo Hermanos Rodr" ++ [237%N] ++ str "guez", coords 19.4042 (-99.0907));
    (str "Mexico", coords 19.4042 (-99.0907));
    (str "Mexico City", coords 19.4042 (-99.0907));
    (* Brazil *)
    (str "Aut" ++ [243%N] ++ str "dromo Jos" ++ [233%N] ++ str " Carlos Pace", coords (-23.703611) (-46.699722));
    (str "Brazil", coords (-23.703611) (-46.699722));
    (str "S" ++ [227%N] ++ str "o Paulo", coords (-23.703611) (-46.699722));
    (str "Interlagos", coords (-23.703611) (-46.699722));
    (* Qatar *)
    (str "Lusail International Circuit", coords 25.4901 51.4542);
    (str "Qatar", coords 25.4901 51.4542);
    (str "Lusail", coords 25.4901 51.4542);
    (* Abu Dhabi *)
    (str "Yas Marina Circuit", coords 24.467222 54.603056);
    (str "Abu Dhabi", coords 24.467222 54.603056);
    (str "Yas Marina", coords 24.467222 54.603056);
    (str "United Arab Emirates", coords 24.467222 54.603056)
  ].

(** Fallback coordinates by country (centered on major city or circuit
    location). *)
Definition COUNTRY_COORDINATES : CoordinateTable :=
  [
    (str "Bahrain", coords 26.0325 50.510556);
    (str "Saudi Arabia", coords 21.6319 39.1044);
    (str "Australia", coords (-37.849722) 144.968333);
    (str "China", coords 31.3389 121.2200);
    (str "Japan", coords 34.843056 136.540556);
    (str "United States", coords 30.1328 (-97.6411));  (* COTA (Austin) location *)
    (str "Italy", coords 44.3439 11.7167);  (* Imola location *)
    (str "Monaco", coords 43.734722 7.420556);
    (str "Spain", coords 41.57 2.261111);
    (str "Canada", coords 45.505833 (-73.526667));
    (str "Austria", coords 47.2197 14.7647);
    (str "United Kingdom", coords 52.071 (-1.016));
    (str "Hungary", coords 47.578889 19.248611);
    (str "Belgium", coords 50.437222 5.971389);
    (str "Netherlands", coords 52.3888 4.5409);
    (str "Azerbaijan", coords 40.3725 49.8533);
    (str "Singapore", coords 1.291403 103.864147);
    (str "Mexico", coords 19.4042 (-99.0907));
    (str "Brazil", coords (-23.703611) (-46.699722));
    (str "Qatar", coords 25.4901 51.4542);
    (str "United Arab Emirates", coords 24.467222 54.603056)
  ].

(** Values a property read on a coordinate table can produce. *)
Inductive JSValue : Type :=
| VUndefined : JSValue
| VCoords : Coordinates -> JSValue
| VInherited : jsstring -> JSValue.

(** Truthiness: arrays, functions and objects are truthy, [undefined] is
    not. *)
Definition truthy (v : JSValue) : bool :=
  match v with
  | VUndefined => false
  | VCoords _ => true
  | VInherited _ => true
  end.

(** Own property of a table (case-sensitive key). *)
Definition ownProperty (mapping : CoordinateTable) (key : jsstring)
  : option Coordinates :=
  option_map snd (find (fun entry => eqb (fst entry) key) mapping).

(** [mapping[key]]: the own property if there is one, otherwise the lookup
    continues in [Object.prototype]. *)
Definition getProperty (mapping : CoordinateTable) (key : jsstring)
  : JSValue :=
  match ownProperty mapping key with
  | Some c => VCoords c
  | None =>
      if existsb (eqb key) Object_prototype_members
      then VInherited key
      else VUndefined
  end.

Section GetRaceCoordinates.

(** [String.prototype.toLowerCase], the Unicode default case conversion of
    the runtime. *)
Variable toLowerCase : jsstring -> jsstring.

(** First loop of [findKey]: exact match (case-insensitive). *)
Definition exactMatch (lowerSearch : jsstring) (mapping : CoordinateTable)
  : option Coordinates :=
  option_map snd
    (find (fun entry => eqb (toLowerCase (fst entry)) lowerSearch) mapping).

(** Second loop of [findKey]: the search value contains the key or the key
    contains the search value. *)
Definition partialMatch (lowerSearch : jsstring) (mapping : CoordinateTable)
  : option Coordinates :=
  option_map snd
    (find (fun entry =>
             let lowerKey := toLowerCase (fst entry) in
             includes lowerSearch lowerKey || includes lowerKey lowerSearch)
          mapping).

(** Helper of [getRaceCoordinates] for case-insensitive lookup; [None] is
    [null]. *)
Definition findKey (searchValue : jsstring) (mapping : CoordinateTable)
  : option Coordinates :=
  if isEmpty searchValue then None
  else
    let lowerSearch := toLowerCase searchValue in
    match exactMatch lowerSearch mapping with
    | Some c => Some c
    | None => partialMatch lowerSearch mapping
    end.

Definition getRaceCoordinates (race : RaceInfo) : JSValue :=
  (* Try circuit name first (with variations) *)
  match findKey (circuit race) CIRCUIT_COORDINATES with
  | Some circuitMatch => VCoords circuitMatch
  | None =>
  (* Try location *)
  match findKey (location race) CIRCUIT_COORDINATES with
  | Some locationMatch => VCoords locationMatch
  | None =>
  (* Try country (exact match first, then fallback) *)
  if truthy (getProperty COUNTRY_COORDINATES (country race))
  then getProperty COUNTRY_COORDINATES (country race)
  else
  match findKey (country race) COUNTRY_COORDINATES with
  | Some countryMatch => VCoords countryMatch
  | None =>
  (* Default fallback (center of world) *)
  VCoords (coords 20 0)
  end
  end
  end.

End GetRaceCoordinates.

(** ** The module [utils/images] *)

(** [name.replace(/_/g, ' ')]. *)
Definition replaceUnderscores (name : jsstring) : jsstring :=
  map (fun c => if (c =? 95)%N then 32%N else c) name.

(** [\b]: exactly one of the characters around the position is a word
    character (the start of the string counts as a non-word character). *)
Definition wordBoundary (beforeIsWord afterIsWord : bool) : bool :=
  xorb beforeIsWord afterIsWord.

(** [s.replace(/\b\w/g, (l) => l.toUpperCase())]: the matches have length
    one, so the scan visits every position once; [beforeIsWord] tells whether
    the previous character of the input is a word character. *)
Fixpoint capitalizeMatches (beforeIsWord : bool) (s : jsstring) : jsstring :=
  match s with
  | [] => []
  | l :: s' =>
      (if wordBoundary beforeIsWord (isWordChar l) && isWordChar l
       then upperUnit l else l)
        :: capitalizeMatches (isWordChar l) s'
  end.

(** Format driver name for display. *)
Definition formatDriverName (name : jsstring) : jsstring :=
  capitalizeMatches false (replaceUnderscores name).

(** ** The component [ComparePage] *)

(** Positions are integers; differences and absolute values of integers of
    this size are exact in the number type of the runtime. *)

Module DriverPrediction.
Record t : Type := mk {
  driverRef : jsstring;
  driver_name : jsstring;
  team : jsstring;
  predicted_position : Z;
  grid_position : option Z
}.
End DriverPrediction.

Module ActualResult.
Record t : Type := mk {
  driverRef : jsstring;
  driver_name : jsstring;
  team : jsstring;
  finish_position : Z;
  grid_position : option Z
}.
End ActualResult.

(** The [accuracy] object of [interface ComparisonData]. *)
Module Accuracy.
Record t : Type := mk {
  mae : Q;
  rmse : R;
  exact_matches : Z;
  exact_match_rate : Q;
  within_one : Z;
  within_one_rate : Q;
  within_three : Z;
  within_three_rate : Q;
  total_drivers : Z
}.
End Accuracy.

(** [interface ComparisonData].  Array elements and the nullable fields are
    options, as the page guards against [null] in each of them. *)
Record ComparisonData : Type := mkComparisonData {
  race_id : Z;
  race_name : jsstring;
  predictions : list (option DriverPrediction.t);
  actual_results : option (list (option ActualResult.t));
  accuracy : option Accuracy.t
}.

(** An entry of [scatterData]. *)
Module ScatterPoint.
Record t : Type := mk {
  driver : jsstring;
  predicted : Z;
  actual : Z;
  error : Z
}.
End ScatterPoint.

(** An entry of [comparisonTable]. *)
Module ComparisonRow.
Record t : Type := mk {
  driver : jsstring;
  team : jsstring;
  predicted : Z;
  actual : Z;
  error : Z;
  absError : Z
}.
End ComparisonRow.

(** [data.actual_results?.find((a) => a && a.driverRef === pred.driverRef)];
    [None] is [undefined]. *)
Definition findActual (actual_results : list (option ActualResult.t))
  (pred : DriverPrediction.t) : option ActualResult.t :=
  match
    find (fun a =>
            match a with
            | Some a' =>
                eqb (ActualResult.driverRef a') (DriverPrediction.driverRef pred)
            | None => false
            end) actual_results
  with
  | Some (Some actual) => Some actual
  | _ => None
  end.

(** Prepare scatter plot data (the condition is that of [comparisonTable]
    below). *)
Definition scatterData (data : ComparisonData) : list ScatterPoint.t :=
  match actual_results data with
  | Some actuals =>
      filterNonNull
        (map (fun pred =>
                match pred with
                | None => None
                | Some pred =>
                    match findActual actuals pred with
                    | Some actual =>
                        Some (ScatterPoint.mk
                                (DriverPrediction.driverRef pred)
                                (DriverPrediction.predicted_position pred)
                                (ActualResult.finish_position actual)
                                (Z.abs (DriverPrediction.predicted_position pred
                                        - ActualResult.finish_position actual)))
                    | None => None
                    end
                end)
             (predictions data))
  | None => []
  end.

(** The callback of [data.predictions.map] in [comparisonTable]. *)
Definition comparisonRow (actuals : list (option ActualResult.t))
  (pred : option DriverPrediction.t) : option ComparisonRow.t :=
  match pred with
  | None => None
  | Some pred =>
      match findActual actuals pred with
      | None => None
      | Some actual =>
          let error :=
            (DriverPrediction.predicted_position pred
             - ActualResult.finish_position actual)%Z in
          Some (ComparisonRow.mk
                  (DriverPrediction.driverRef pred)
                  (DriverPrediction.team pred)
                  (DriverPrediction.predicted_position pred)
                  (ActualResult.finish_position actual)
                  error
                  (Z.abs error))
      end
  end.

(** Prepare comparison table data.  [data.predictions] is an array, and an
    array is truthy even when it is empty, so the condition
    [data.actual_results && data.predictions] is that the results are not
    [null]. *)
Definition comparisonTable (data : ComparisonData) : list ComparisonRow.t :=
  match actual_results data with
  | Some actuals =>
      sort (fun a b => (ComparisonRow.actual a - ComparisonRow.actual b)%Z)
        (filterNonNull (map (comparisonRow actuals) (predictions data)))
  | None => []
  end.

(** The guards of the sections of the page. *)
Definition showAccuracyMetrics (data : ComparisonData) : bool :=
  match accuracy data with
  | Some a => (0 <? Accuracy.total_drivers a)%Z
  | None => false
  end.

Definition showScatterPlot (data : ComparisonData) : bool :=
  (0 <? length (scatterData data))%nat.

Definition showComparisonTable (data : ComparisonData) : bool :=
  (0 <? length (comparisonTable data))%nat.

Definition showPredictionsOnly (data : ComparisonData) : bool :=
  (0 <? length (predictions data))%nat &&
  match actual_results data with
  | Some _ => false
  | None => true
  end.

(** ** The accuracy summary *)

(** Modelled from the spec: the accuracy summary is computed by the
    prediction service (backend/main.py), which is not among the sources;
    the page only reads it from the response.  The summary is taken over the
    matched set: the mean of the absolute errors, the root of the mean of
    the squared errors, the counts of the records with absolute error 0, at
    most 1 and at most 3, and each rate as count / matched-count, everything
    being 0 when nothing is matched. *)
Definition countWithin (k : Z) (rows : list ComparisonRow.t) : Z :=
  Z.of_nat
    (length (filter (fun r => (ComparisonRow.absError r <=? k)%Z) rows)).

Definition rateOf (count total : Z) : Q :=
  if (total =? 0)%Z then 0 else inject_Z count / inject_Z total.

Definition meanOf (xs : list Z) : Q :=
  if (Z.of_nat (length xs) =? 0)%Z then 0
  else inject_Z (fold_right Z.add 0%Z xs) / inject_Z (Z.of_nat (length xs)).

Definition meanSquaredError (rows : list ComparisonRow.t) : Q :=
  meanOf (map (fun r => (ComparisonRow.error r * ComparisonRow.error r)%Z) rows).

Definition accuracySummary (rows : list ComparisonRow.t) : Accuracy.t :=
  let total := Z.of_nat (length rows) in
  Accuracy.mk
    (meanOf (map ComparisonRow.absError rows))
    (if (total =? 0)%Z then 0%R else sqrt (Q2R (meanSquaredError rows)))
    (countWithin 0 rows)
    (rateOf (countWithin 0 rows) total)
    (countWithin 1 rows)
    (rateOf (countWithin 1 rows) total)
    (countWithin 3 rows)
    (rateOf (countWithin 3 rows) total)
    total.

(** Modelled from the spec: [buildComparison] pairs the comparison records
    with the summary over them; without actual results there is neither.
    The records are those of [comparisonTable]. *)
Definition buildComparison (predictions : list (option DriverPrediction.t))
  (actuals : option (list (option ActualResult.t)))
  : list ComparisonRow.t * option Accuracy.t :=
  let rows := comparisonTable (mkComparisonData 0 [] predictions actuals None) in
  (rows, option_map (fun _ => accuracySummary rows) actuals).

(** * Vocabulary of the statements *)

(** ** Tables and matches *)

(** Pairwise distinct strings, as a test. *)
Fixpoint distinct (l : list jsstring) : bool :=
  match l with
  | [] => true
  | s :: l' => negb (existsb (eqb s) l') && distinct l'
  end.

(** The keys of a table, in the order of [Object.entries]. *)
Definition keys (mapping : CoordinateTable) : list jsstring :=
  map fst mapping.

Section Matches.

Variable toLowerCase : jsstring -> jsstring.

(** The test of the two loops of [findKey] for one key. *)
Definition matchesKey (searchValue key : jsstring) : bool :=
  let lowerSearch := toLowerCase searchValue in
  let lowerKey := toLowerCase key in
  eqb lowerKey lowerSearch ||
  includes lowerSearch lowerKey || includes lowerKey lowerSearch.

(** No key of the table matches the search value, exactly or partially. *)
Definition matchesNoKey (searchValue : jsstring) (mapping : CoordinateTable)
  : bool :=
  forallb (fun key => negb (matchesKey searchValue key)) (keys mapping).

End Matches.

(** Steps of [getRaceCoordinates] that read the country field only. *)
Definition fromCountry (toLowerCase : jsstring -> jsstring)
  (country : jsstring) : JSValue :=
  if truthy (getProperty COUNTRY_COORDINATES country)
  then getProperty COUNTRY_COORDINATES country
  else
    match findKey toLowerCase country COUNTRY_COORDINATES with
    | Some countryMatch => VCoords countryMatch
    | None => VCoords (coords 20 0)
    end.

(** A race whose circuit and location are empty and whose country is the
    name of a property inherited from [Object.prototype]. *)
Definition raceWithInheritedCountry : RaceInfo :=
  mkRaceInfo 1 [] [] [] [] (str "constructor") 1 [] 2024.

(** A race none of whose fields matches a key of a table. *)
Definition raceWithoutMatch : RaceInfo :=
  mkRaceInfo 1 [] [] (str "zzz") (str "zzz") (str "constructor") 1 [] 2024.

(** A race with empty circuit and location, in Italy. *)
Definition raceWithCountryOnly : RaceInfo :=
  mkRaceInfo 1 [] [] [] [] (str "Italy") 1 [] 2024.

(** A race whose circuit is a key of the circuit table in capitals. *)
Definition raceAtSilverstone : RaceInfo :=
  mkRaceInfo 1 [] [] (str "SILVERSTONE CIRCUIT") (str "Montreal")
    (str "Italy") 1 [] 2024.

Definition isCoordinatePair (v : JSValue) : Prop :=
  exists lat lng : Q, v = VCoords (lat, lng).

(** ** Words *)

(** The words of the specification for [formatDisplayName], to compare
    [formatDriverName] with: underscores become spaces and every word is put
    in title case, its first letter in upper case and its other letters in
    lower case.  A word is a maximal run of letters and digits, whatever the
    alphabet of the letters: the letters of Latin-1 are those of ASCII, the
    ordinal indicators, the micro sign and the accented letters, and a code
    unit beyond Latin-1 is taken as a letter without case, so that it does
    not end a word. *)
Definition isUpperAscii (c : N) : bool := ((65 <=? c) && (c <=? 90))%N.

Definition isLetter (c : N) : bool :=
  ((65 <=? c) && (c <=? 90) || (97 <=? c) && (c <=? 122) ||
   (c =? 170) || (c =? 181) || (c =? 186) ||
   (192 <=? c) && (c <=? 214) || (216 <=? c) && (c <=? 246) ||
   (248 <=? c))%N.

Definition isLetterOrDigit (c : N) : bool :=
  (isLetter c || (48 <=? c) && (c <=? 57))%N.

(** Upper-casing of one Latin-1 letter; the sharp s has no single upper-case
    letter and stays. *)
Definition upperLatin1 (c : N) : N :=
  if ((97 <=? c) && (c <=? 122) ||
      (224 <=? c) && (c <=? 254) && negb (c =? 247))%N
  then (c - 32)%N
  else if (c =? 255)%N then 376%N
  else if (c =? 181)%N then 924%N
  else c.

Fixpoint titleCaseWords (insideWord : bool) (s : jsstring) : jsstring :=
  match s with
  | [] => []
  | c :: s' =>
      (if isLetterOrDigit c
       then if insideWord then lowerUnit c else upperLatin1 c
       else c)
        :: titleCaseWords (isLetterOrDigit c) s'
  end.

Definition formatDisplayName_spec (slug : jsstring) : jsstring :=
  titleCaseWords false (replaceUnderscores slug).

(** The character at index [i] is matched by [\w]. *)
Definition wordCharAt (s : jsstring) (i : nat) : bool :=
  match nth_error s i with
  | Some c => isWordChar c
  | None => false
  end.

(** The character at index [i] is a letter or a digit. *)
Definition letterOrDigitAt (s : jsstring) (i : nat) : bool :=
  match nth_error s i with
  | Some c => isLetterOrDigit c
  | None => false
  end.

(** Index [i] starts a word: a letter or digit with no letter or digit just
    before it. *)
Definition startsWord (s : jsstring) (i : nat) : bool :=
  letterOrDigitAt s i &&
  negb (match i with
        | O => false
        | S j => letterOrDigitAt s j
        end).

Definition noUpperAscii (s : jsstring) : bool :=
  forallb (fun c => negb (isUpperAscii c)) s.

(** Names written in ASCII. *)
Definition isAscii (s : jsstring) : bool :=
  forallb (fun c => (c <? 128)%N) s.

(** ** Orderings *)

Section ByKey.

Variable X : Type.

(** The comparator [(a, b) => key(a) - key(b)] and the order it sorts by. *)
Variable key : X -> Z.

Definition byKey (a b : X) : Z := (key a - key b)%Z.
Definition keyLe (a b : X) : Prop := (key a <= key b)%Z.

End ByKey.
Arguments byKey {X} key a b.
Arguments keyLe {X} key a b.

(** Ascending actual finishing position. *)
Definition byActual : ComparisonRow.t -> ComparisonRow.t -> Prop :=
  keyLe ComparisonRow.actual.

(** ** Scenarios *)

(** The end-to-end scenario of the specification: A is predicted first and
    finishes second, B is predicted second and finishes first. *)
Definition scenarioPredictions : list (option DriverPrediction.t) :=
  [ Some (DriverPrediction.mk (str "A") (str "A") (str "T") 1 None);
    Some (DriverPrediction.mk (str "B") (str "B") (str "T") 2 None) ].

Definition scenarioActuals : list (option ActualResult.t) :=
  [ Some (ActualResult.mk (str "A") (str "A") (str "T") 2 None);
    Some (ActualResult.mk (str "B") (str "B") (str "T") 1 None) ].

Definition scenario : ComparisonData :=
  mkComparisonData 1 (str "Race") scenarioPredictions (Some scenarioActuals)
    None.

Definition scenarioRowA : ComparisonRow.t :=
  ComparisonRow.mk (str "A") (str "T") 1 2 (-1) 1.

Definition scenarioRowB : ComparisonRow.t :=
  ComparisonRow.mk (str "B") (str "T") 2 1 1 1.

(** The scenario with a third prediction, for a driver C who is not among
    the results. *)
Definition scenarioWithUnmatched : ComparisonData :=
  mkComparisonData 1 (str "Race")
    (Some (DriverPrediction.mk (str "C") (str "C") (str "T") 3 None)
       :: scenarioPredictions)
    (Some scenarioActuals) None.

(** A driver predicted fifth who finishes third. *)
Definition scenarioFiveThree : ComparisonData :=
  mkComparisonData 1 (str "Race")
    [Some (DriverPrediction.mk (str "A") (str "A") (str "T") 5 None)]
    (Some [Some (ActualResult.mk (str "A") (str "A") (str "T") 3 None)])
    None.

Definition scenarioRowFiveThree : ComparisonRow.t :=
  ComparisonRow.mk (str "A") (str "T") 5 3 2 2.

(** The scenario before the race: no results yet. *)
Definition scenarioBeforeRace : ComparisonData :=
  mkComparisonData 1 (str "Race") scenarioPredictions None None.


(** * Properties *)

(** ** Strings *)

Lemma eqb_eq (s t : jsstring) : eqb s t = true <-> s = t.
Proof.
  revert t; induction s as [|c s IH]; intros [|d t]; simpl; split;
    try congruence; try reflexivity.
  - intros H. apply andb_true_iff in H as [Hc Hs].
    apply N.eqb_eq in Hc. apply IH in Hs. now subst.
  - intros H. injection H as -> ->.
    apply andb_true_iff; split; [apply N.eqb_refl | now apply IH].
Qed.

Lemma eqb_refl (s : jsstring) : eqb s s = true.
Proof. now apply eqb_eq. Qed.

Lemma eqb_neq (s t : jsstring) : eqb s t = false <-> s <> t.
Proof.
  split.
  - intros H E. apply eqb_eq in E. congruence.
  - intros H. destruct (eqb s t) eqn:E; [|reflexivity].
    apply eqb_eq in E. contradiction.
Qed.

Lemma startsWith_empty (s : jsstring) : startsWith s [] = true.
Proof. now destruct s. Qed.

(** The empty string occurs in every string. *)
Lemma includes_empty (s : jsstring) : includes s [] = true.
Proof. destruct s; simpl; [reflexivity|]. reflexivity. Qed.

Lemma isEmpty_true (s : jsstring) : isEmpty s = true <-> s = [].
Proof. destruct s; simpl; split; congruence. Qed.

Lemma distinct_NoDup (l : list jsstring) : distinct l = true -> NoDup l.
Proof.
  induction l as [|s l IH]; simpl; intros H; constructor.
  - apply andb_true_iff in H as [H _]. intros Hin.
    apply negb_true_iff in H.
    assert (existsb (eqb s) l = true) as E; [|congruence].
    apply existsb_exists. exists s. split; [assumption | apply eqb_refl].
  - apply andb_true_iff in H as [_ H]. now apply IH.
Qed.

(** ** The coordinate tables *)

(** No key is written twice in either literal, so the lists are the objects
    and [Object.entries] yields them as they are. *)
Lemma CIRCUIT_COORDINATES_keys_distinct : NoDup (keys CIRCUIT_COORDINATES).
Proof. apply distinct_NoDup. vm_compute. reflexivity. Qed.

Lemma COUNTRY_COORDINATES_keys_distinct : NoDup (keys COUNTRY_COORDINATES).
Proof. apply distinct_NoDup. vm_compute. reflexivity. Qed.

Lemma CIRCUIT_COORDINATES_keys_latin1 :
  forallb isLatin1 (keys CIRCUIT_COORDINATES) = true.
Proof. vm_compute. reflexivity. Qed.

Lemma CIRCUIT_COORDINATES_keys_nonempty :
  forallb (fun k => negb (isEmpty k)) (keys CIRCUIT_COORDINATES) = true.
Proof. vm_compute. reflexivity. Qed.

(** The keys stay distinct when put in lower case. *)
Lemma CIRCUIT_COORDINATES_lower_keys_distinct :
  NoDup (map toLowerCaseLatin1 (keys CIRCUIT_COORDINATES)).
Proof. apply distinct_NoDup. vm_compute. reflexivity. Qed.

(** ** [findKey] *)

Section FindKeyFacts.

Variable toLowerCase : jsstring -> jsstring.

Lemma find_none_iff (X : Type) (p : X -> bool) (l : list X) :
  find p l = None <-> forallb (fun x => negb (p x)) l = true.
Proof.
  induction l as [|x l IH]; simpl; [tauto|].
  destruct (p x); simpl; [split; discriminate | exact IH].
Qed.

(** An empty search value is rejected before either loop runs. *)
Lemma findKey_empty (mapping : CoordinateTable) :
  findKey toLowerCase [] mapping = None.
Proof. reflexivity. Qed.

(** A search value with an exact match is resolved by the first loop. *)
Lemma findKey_exact (searchValue : jsstring) (mapping : CoordinateTable)
  (c : Coordinates) :
  searchValue <> [] ->
  exactMatch toLowerCase (toLowerCase searchValue) mapping = Some c ->
  findKey toLowerCase searchValue mapping = Some c.
Proof.
  intros Hne He. unfold findKey.
  destruct searchValue; [contradiction|]. simpl isEmpty. cbv zeta.
  now rewrite He.
Qed.

(** When the lower-cased keys are pairwise distinct, the first loop returns
    the coordinates of the very key that equals the search value. *)
Lemma exactMatch_unique (mapping : CoordinateTable) (key : jsstring)
  (c : Coordinates) :
  NoDup (map toLowerCase (keys mapping)) ->
  In (key, c) mapping ->
  exactMatch toLowerCase (toLowerCase key) mapping = Some c.
Proof.
  unfold exactMatch, keys.
  induction mapping as [|[k0 c0] rest IH]; simpl; intros Hnd Hin;
    [contradiction|].
  inversion Hnd as [|? ? Hnotin Hnd']; subst.
  destruct (eqb (toLowerCase k0) (toLowerCase key)) eqn:E.
  - destruct Hin as [Heq | Hin]; [now inversion Heq|].
    exfalso. apply Hnotin. apply eqb_eq in E. rewrite E.
    rewrite map_map. apply in_map_iff. exists (key, c). now split.
  - destruct Hin as [Heq | Hin].
    + inversion Heq; subst. rewrite eqb_refl in E. discriminate.
    + now apply IH.
Qed.

Lemma findKey_matchesNoKey (searchValue : jsstring)
  (mapping : CoordinateTable) :
  matchesNoKey toLowerCase searchValue mapping = true ->
  findKey toLowerCase searchValue mapping = None.
Proof.
  unfold matchesNoKey, keys, findKey, exactMatch, partialMatch.
  intros H. rewrite forallb_forall in H.
  destruct (isEmpty searchValue); [reflexivity|]. cbv zeta.
  assert (forall e, In e mapping ->
                    matchesKey toLowerCase searchValue (fst e) = false) as Hno.
  { intros e He. apply negb_true_iff. apply H. now apply in_map. }
  replace (find _ mapping) with (@None (jsstring * Coordinates)).
  - simpl. replace (find _ mapping) with (@None (jsstring * Coordinates));
      [reflexivity|].
    symmetry. apply find_none_iff. apply forallb_forall. intros e He.
    specialize (Hno e He). unfold matchesKey in Hno. cbv zeta in *.
    apply orb_false_iff in Hno as [Hno H2].
    apply orb_false_iff in Hno as [_ H1].
    now rewrite H1, H2.
  - symmetry. apply find_none_iff. apply forallb_forall. intros e He.
    specialize (Hno e He). unfold matchesKey in Hno. cbv zeta in *.
    apply orb_false_iff in Hno as [Hno _].
    apply orb_false_iff in Hno as [H0 _].
    now rewrite H0.
Qed.

(** An own property is found under a key of the table only; the keys being
    compared as they are, such a key matches exactly in [findKey] too. *)
Lemma ownProperty_matchesKey (mapping : CoordinateTable) (key : jsstring)
  (c : Coordinates) :
  ownProperty mapping key = Some c ->
  matchesNoKey toLowerCase key mapping = false.
Proof.
  unfold ownProperty, matchesNoKey, keys. intros H.
  destruct (find _ mapping) as [[k c']|] eqn:F; [|discriminate].
  apply find_some in F as [Hin E]. simpl in E. apply eqb_eq in E. subst k.
  apply not_true_iff_false. intros Hall. rewrite forallb_forall in Hall.
  specialize (Hall key (in_map fst _ _ Hin)).
  apply negb_true_iff in Hall. unfold matchesKey in Hall. cbv zeta in Hall.
  rewrite eqb_refl in Hall. discriminate.
Qed.

End FindKeyFacts.

(** ** [getRaceCoordinates] *)

Section GetRaceCoordinatesFacts.

Variable toLowerCase : jsstring -> jsstring.

Lemma getRaceCoordinates_fromCountry (race : RaceInfo) :
  findKey toLowerCase (circuit race) CIRCUIT_COORDINATES = None ->
  findKey toLowerCase (location race) CIRCUIT_COORDINATES = None ->
  getRaceCoordinates toLowerCase race = fromCountry toLowerCase (country race).
Proof.
  intros Hc Hl. unfold getRaceCoordinates, fromCountry. now rewrite Hc, Hl.
Qed.

Lemma getProperty_cases (mapping : CoordinateTable) (key : jsstring) :
  (exists c, ownProperty mapping key = Some c /\
             getProperty mapping key = VCoords c) \/
  (ownProperty mapping key = None /\
   existsb (eqb key) Object_prototype_members = true /\
   getProperty mapping key = VInherited key) \/
  (ownProperty mapping key = None /\
   existsb (eqb key) Object_prototype_members = false /\
   getProperty mapping key = VUndefined).
Proof.
  unfold getProperty. destruct (ownProperty mapping key) as [c|].
  - left. now exists c.
  - right. destruct (existsb (eqb key) Object_prototype_members); tauto.
Qed.

(** For a country that is not the name of an inherited property the
    resolver returns a pair of coordinates, whatever the three fields are. *)
Lemma getRaceCoordinates_pair_unless_inherited (race : RaceInfo) :
  existsb (eqb (country race)) Object_prototype_members = false ->
  isCoordinatePair (getRaceCoordinates toLowerCase race).
Proof.
  intros Hown. unfold getRaceCoordinates, isCoordinatePair.
  destruct (findKey toLowerCase (circuit race) _) as [[lat lng]|];
    [now exists lat, lng|].
  destruct (findKey toLowerCase (location race) _) as [[lat lng]|];
    [now exists lat, lng|].
  destruct (getProperty_cases COUNTRY_COORDINATES (country race))
    as [[[lat lng] [_ ->]] | [[_ [Hin _]] | [_ [_ ->]]]]; simpl.
  - now exists lat, lng.
  - congruence.
  - destruct (findKey toLowerCase (country race) _) as [[lat lng]|];
      [now exists lat, lng|].
    now exists 20, 0.
Qed.

(** Without any match, and for a country that is not the name of an
    inherited property, the resolver returns the default coordinate. *)
Lemma getRaceCoordinates_default_unless_inherited (race : RaceInfo) :
  matchesNoKey toLowerCase (circuit race) CIRCUIT_COORDINATES = true ->
  matchesNoKey toLowerCase (location race) CIRCUIT_COORDINATES = true ->
  matchesNoKey toLowerCase (country race) COUNTRY_COORDINATES = true ->
  existsb (eqb (country race)) Object_prototype_members = false ->
  getRaceCoordinates toLowerCase race = VCoords (coords 20 0).
Proof.
  intros Hc Hl Hk Hown.
  rewrite getRaceCoordinates_fromCountry
    by now apply findKey_matchesNoKey.
  unfold fromCountry.
  destruct (getProperty_cases COUNTRY_COORDINATES (country race))
    as [[c [Hc' _]] | [[_ [Hin _]] | [_ [_ ->]]]].
  - apply (ownProperty_matchesKey toLowerCase) in Hc'. congruence.
  - congruence.
  - simpl. now rewrite (findKey_matchesNoKey _ _ _ Hk).
Qed.

(** C1.  The resolver does not return a latitude/longitude pair for every
    race: for a race with empty circuit and location whose country is
    ["constructor"], the read [COUNTRY_COORDINATES[race.country]] yields the
    member that the table inherits from [Object.prototype], which is truthy
    and is returned as it is, in place of a pair of numbers. *)
Theorem getRaceCoordinates_inherited_member_returned :
  getRaceCoordinates toLowerCase raceWithInheritedCountry
    = VInherited (str "constructor") /\
  ~ isCoordinatePair (getRaceCoordinates toLowerCase raceWithInheritedCountry).
Proof.
  assert (getRaceCoordinates toLowerCase raceWithInheritedCountry
          = VInherited (str "constructor")) as E by reflexivity.
  split; [exact E|]. rewrite E. intros [lat [lng H]]. discriminate.
Qed.

(** C10.  An empty search value matches no key of any table, although the
    empty string occurs in every key; so a race with empty circuit and
    location is resolved by the steps that read its country, which end in
    the default coordinate, and that is the result when the country is
    empty as well. *)
Theorem findKey_empty_search_never_matches (race : RaceInfo) :
  circuit race = [] ->
  location race = [] ->
  (forall mapping, findKey toLowerCase [] mapping = None) /\
  (forall key, includes key [] = true) /\
  getRaceCoordinates toLowerCase race
    = fromCountry toLowerCase (country race) /\
  (country race = [] ->
   getRaceCoordinates toLowerCase race = VCoords (coords 20 0)).
Proof.
  intros Hc Hl.
  assert (getRaceCoordinates toLowerCase race
          = fromCountry toLowerCase (country race)) as E.
  { apply getRaceCoordinates_fromCountry; rewrite ?Hc, ?Hl;
      apply findKey_empty. }
  split; [|split; [|split]].
  - apply findKey_empty.
  - apply includes_empty.
  - exact E.
  - intros Hk. rewrite E, Hk. reflexivity.
Qed.

Section ExactMatch.

(** On Latin-1 strings the lower-casing of the runtime is [lowerUnit] on
    every code unit. *)
Hypothesis toLowerCase_latin1 :
  forall s, isLatin1 s = true -> toLowerCase s = toLowerCaseLatin1 s.

Lemma toLowerCase_keys (l : list jsstring) :
  forallb isLatin1 l = true ->
  map toLowerCase l = map toLowerCaseLatin1 l.
Proof.
  intros H. rewrite forallb_forall in H.
  apply map_ext_in. intros k Hk. now apply toLowerCase_latin1, H.
Qed.

(** C2.  A circuit name equal to a key of the circuit table, up to case,
    is resolved by the exact-match loop to the coordinates of that key,
    whatever the location and the country are. *)
Theorem getRaceCoordinates_exact_circuit_match (race : RaceInfo)
  (key : jsstring) (c : Coordinates) :
  In (key, c) CIRCUIT_COORDINATES ->
  toLowerCase (circuit race) = toLowerCase key ->
  exactMatch toLowerCase (toLowerCase (circuit race)) CIRCUIT_COORDINATES
    = Some c /\
  getRaceCoordinates toLowerCase race = VCoords c.
Proof.
  intros Hin Heq.
  assert (exactMatch toLowerCase (toLowerCase (circuit race))
            CIRCUIT_COORDINATES = Some c) as Hexact.
  { rewrite Heq. apply exactMatch_unique; [|assumption].
    rewrite (toLowerCase_keys _ CIRCUIT_COORDINATES_keys_latin1).
    apply CIRCUIT_COORDINATES_lower_keys_distinct. }
  split; [assumption|].
  assert (circuit race <> []) as Hne.
  { intros Hnil. rewrite Hnil in Heq.
    rewrite (toLowerCase_latin1 []) in Heq by reflexivity.
    pose proof CIRCUIT_COORDINATES_keys_latin1 as Hl.
    pose proof CIRCUIT_COORDINATES_keys_nonempty as Hn.
    rewrite forallb_forall in Hl, Hn.
    pose proof (in_map fst _ _ Hin) as Hk. simpl in Hk.
    rewrite (toLowerCase_latin1 key) in Heq by now apply Hl.
    specialize (Hn key Hk). destruct key; [discriminate|].
    discriminate. }
  unfold getRaceCoordinates.
  now rewrite (findKey_exact toLowerCase _ _ _ Hne Hexact).
Qed.

End ExactMatch.

End GetRaceCoordinatesFacts.

Lemma findKey_empty_search_never_matches_witness :
  circuit raceWithCountryOnly = [] /\
  location raceWithCountryOnly = [] /\
  getRaceCoordinates toLowerCaseLatin1 raceWithCountryOnly
    = fromCountry toLowerCaseLatin1 (country raceWithCountryOnly) /\
  fromCountry toLowerCaseLatin1 (country raceWithCountryOnly)
    = VCoords (coords 44.3439 11.7167).
Proof.
  split; [reflexivity|]. split; [reflexivity|]. split; [|reflexivity].
  apply (findKey_empty_search_never_matches toLowerCaseLatin1
           raceWithCountryOnly); reflexivity.
Defined.

Lemma getRaceCoordinates_exact_circuit_match_witness :
  In (str "Silverstone Circuit", coords 52.071 (-1.016)) CIRCUIT_COORDINATES /\
  toLowerCaseLatin1 (circuit raceAtSilverstone)
    = toLowerCaseLatin1 (str "Silverstone Circuit") /\
  exactMatch toLowerCaseLatin1
    (toLowerCaseLatin1 (circuit raceAtSilverstone)) CIRCUIT_COORDINATES
    = Some (coords 52.071 (-1.016)) /\
  getRaceCoordinates toLowerCaseLatin1 raceAtSilverstone
    = VCoords (coords 52.071 (-1.016)).
Proof.
  assert (In (str "Silverstone Circuit", coords 52.071 (-1.016))
            CIRCUIT_COORDINATES) as Hin.
  { unfold CIRCUIT_COORDINATES.
    repeat (first [left; reflexivity | right]). }
  split; [exact Hin|]. split; [reflexivity|].
  apply (getRaceCoordinates_exact_circuit_match toLowerCaseLatin1
           (fun s _ => eq_refl) raceAtSilverstone
           (str "Silverstone Circuit") (coords 52.071 (-1.016)) Hin).
  reflexivity.
Defined.

(** C8.  A race whose circuit, location and country match no key of the
    tables, exactly or partially, is not always resolved to the default
    coordinate: with the country ["constructor"] the member inherited from
    [Object.prototype] is returned. *)
Theorem getRaceCoordinates_default_missed :
  matchesNoKey toLowerCaseLatin1 (circuit raceWithoutMatch)
    CIRCUIT_COORDINATES = true /\
  matchesNoKey toLowerCaseLatin1 (location raceWithoutMatch)
    CIRCUIT_COORDINATES = true /\
  matchesNoKey toLowerCaseLatin1 (country raceWithoutMatch)
    COUNTRY_COORDINATES = true /\
  ownProperty COUNTRY_COORDINATES (country raceWithoutMatch) = None /\
  getRaceCoordinates toLowerCaseLatin1 raceWithoutMatch
    = VInherited (str "constructor") /\
  getRaceCoordinates toLowerCaseLatin1 raceWithoutMatch
    <> VCoords (coords 20 0).
Proof.
  repeat split; try (vm_compute; reflexivity).
  vm_compute. discriminate.
Qed.

(** ** [formatDriverName] *)

Lemma wordBoundary_match (b w : bool) :
  wordBoundary b w && w = w && negb b.
Proof. now destruct b, w. Qed.

Lemma replaceUnderscores_length (s : jsstring) :
  length (replaceUnderscores s) = length s.
Proof. apply length_map. Qed.

Lemma capitalizeMatches_length (b : bool) (s : jsstring) :
  length (capitalizeMatches b s) = length s.
Proof.
  revert b; induction s as [|c s IH]; intros b; simpl; [reflexivity|].
  now rewrite IH.
Qed.

Lemma capitalizeMatches_nth (s : jsstring) :
  forall (b : bool) (i : nat),
    nth_error (capitalizeMatches b s) i =
    option_map
      (fun c =>
         if isWordChar c &&
            negb (match i with
                  | O => b
                  | S j => wordCharAt s j
                  end)
         then upperUnit c else c)
      (nth_error s i).
Proof.
  induction s as [|c s IH]; intros b i.
  - now destruct i.
  - destruct i as [|i]; simpl.
    + now rewrite wordBoundary_match.
    + rewrite IH. destruct i; reflexivity.
Qed.

(** ASCII characters other than the underscore: there [\w] matches the
    letters and digits, and the two upper-casings agree. *)
Definition plainAscii (s : jsstring) : Prop :=
  Forall (fun c => (c < 128)%N /\ c <> 95%N) s.

Lemma isWordChar_ascii (c : N) :
  (c < 128)%N -> c <> 95%N -> isWordChar c = isLetterOrDigit c.
Proof.
  intros Hc Hu. apply eq_iff_eq_true.
  unfold isWordChar, isLetterOrDigit, isLetter.
  rewrite !orb_true_iff, !andb_true_iff, !N.leb_le, !N.eqb_eq. lia.
Qed.

Lemma upperUnit_ascii (c : N) : (c < 128)%N -> upperUnit c = upperLatin1 c.
Proof.
  intros Hc. unfold upperUnit, upperLatin1.
  replace (224 <=? c)%N with false by (symmetry; apply N.leb_gt; lia).
  replace (c =? 255)%N with false by (symmetry; apply N.eqb_neq; lia).
  replace (c =? 181)%N with false by (symmetry; apply N.eqb_neq; lia).
  simpl. now rewrite orb_false_r.
Qed.

Lemma lowerUnit_ascii (c : N) :
  (c < 128)%N -> isUpperAscii c = false -> lowerUnit c = c.
Proof.
  intros Hc Hu. unfold lowerUnit. unfold isUpperAscii in Hu. rewrite Hu.
  replace (192 <=? c)%N with false by (symmetry; apply N.leb_gt; lia).
  reflexivity.
Qed.

Lemma replaceUnderscores_plainAscii (s : jsstring) :
  isAscii s = true -> plainAscii (replaceUnderscores s).
Proof.
  unfold isAscii, plainAscii, replaceUnderscores. intros H.
  rewrite forallb_forall in H. apply Forall_map. apply Forall_forall.
  intros c Hc. specialize (H c Hc). apply N.ltb_lt in H.
  destruct (N.eqb_spec c 95); split; try assumption; lia.
Qed.

Lemma wordCharAt_plainAscii (s : jsstring) (i : nat) :
  plainAscii s -> wordCharAt s i = letterOrDigitAt s i.
Proof.
  unfold plainAscii, wordCharAt, letterOrDigitAt. intros H.
  destruct (nth_error s i) as [c|] eqn:E; [|reflexivity].
  apply nth_error_In in E. rewrite Forall_forall in H.
  destruct (H c E) as [Hc Hu]. now apply isWordChar_ascii.
Qed.

Lemma capitalizeMatches_titleCaseWords (s : jsstring) :
  forall b : bool,
    plainAscii s ->
    noUpperAscii s = true ->
    capitalizeMatches b s = titleCaseWords b s.
Proof.
  unfold noUpperAscii, plainAscii.
  induction s as [|c s IH]; intros b Hp H; simpl in *; [reflexivity|].
  inversion Hp as [|? ? [Hc Hu] Hp']; subst.
  apply andb_true_iff in H as [Hup Hs]. apply negb_true_iff in Hup.
  rewrite wordBoundary_match, (isWordChar_ascii c Hc Hu).
  rewrite (IH _ Hp' Hs). f_equal.
  rewrite (upperUnit_ascii c Hc), (lowerUnit_ascii c Hc Hup).
  now destruct (isLetterOrDigit c), b.
Qed.

Lemma replaceUnderscores_noUpperAscii (s : jsstring) :
  noUpperAscii s = true -> noUpperAscii (replaceUnderscores s) = true.
Proof.
  unfold noUpperAscii, replaceUnderscores.
  induction s as [|c s IH]; simpl; [reflexivity|].
  intros H. apply andb_true_iff in H as [Hc Hs].
  rewrite (IH Hs), andb_true_r. now destruct (c =? 95)%N.
Qed.


(** A letter outside ASCII ends a word for [\b]: the letter after it is
    put in upper case too. *)
Example formatDriverName_non_ascii_letter :
  formatDriverName (str "sergio_p" ++ [233%N] ++ str "rez")
  = str "Sergio P" ++ [233%N] ++ str "Rez".
Proof. reflexivity. Qed.

(** There the words of the specification keep the word whole. *)
Example formatDisplayName_spec_non_ascii_letter :
  formatDisplayName_spec (str "sergio_p" ++ [233%N] ++ str "rez")
  = str "Sergio P" ++ [233%N] ++ str "rez".
Proof. reflexivity. Qed.



(** ** [Array.prototype.sort] *)

Section SortFacts.

Variable X : Type.

Section AnyComparator.

Variable compareFn : X -> X -> Z.

Lemma insert_length (x : X) (l : list X) :
  length (insert compareFn x l) = S (length l).
Proof.
  induction l as [|y l IH]; simpl; [reflexivity|].
  destruct (compareFn x y <=? 0)%Z; simpl; [reflexivity | now rewrite IH].
Qed.

Lemma sort_length (l : list X) : length (sort compareFn l) = length l.
Proof.
  induction l as [|x l IH]; simpl; [reflexivity|].
  now rewrite insert_length, IH.
Qed.

Lemma insert_Permutation (x : X) (l : list X) :
  Permutation (x :: l) (insert compareFn x l).
Proof.
  induction l as [|y l IH]; simpl; [apply Permutation_refl|].
  destruct (compareFn x y <=? 0)%Z; [apply Permutation_refl|].
  eapply Permutation_trans; [apply perm_swap|]. now apply perm_skip.
Qed.

Lemma sort_Permutation (l : list X) : Permutation l (sort compareFn l).
Proof.
  induction l as [|x l IH]; simpl; [constructor|].
  eapply Permutation_trans; [|apply insert_Permutation].
  now apply perm_skip.
Qed.

Lemma sort_In (x : X) (l : list X) : In x (sort compareFn l) <-> In x l.
Proof.
  split; apply Permutation_in;
    [apply Permutation_sym|]; apply sort_Permutation.
Qed.

End AnyComparator.

Section SortByKey.

Variable key : X -> Z.

Lemma insert_sorted (x : X) (l : list X) :
  StronglySorted (keyLe key) l ->
  StronglySorted (keyLe key) (insert (byKey key) x l).
Proof.
  induction l as [|y l IH]; simpl; intros Hs.
  - constructor; constructor.
  - inversion Hs as [|? ? Hs' Hall]; subst.
    destruct (byKey key x y <=? 0)%Z eqn:E; unfold byKey in E.
    + apply Z.leb_le in E. constructor; [assumption|].
      constructor; [unfold keyLe; lia|].
      eapply Forall_impl; [|exact Hall]. unfold keyLe. intros; lia.
    + apply Z.leb_gt in E. constructor; [now apply IH|].
      eapply Permutation_Forall; [apply insert_Permutation|].
      constructor; [unfold keyLe; lia | assumption].
Qed.

Lemma sort_sorted (l : list X) :
  StronglySorted (keyLe key) (sort (byKey key) l).
Proof.
  induction l as [|x l IH]; simpl; [constructor | now apply insert_sorted].
Qed.

(** The sort is stable: the elements with a given key keep their order. *)
Lemma insert_stable (k : Z) (x : X) (l : list X) :
  filter (fun y => (key y =? k)%Z) (insert (byKey key) x l)
  = filter (fun y => (key y =? k)%Z) (x :: l).
Proof.
  induction l as [|y l IH]; [reflexivity|]. simpl insert.
  destruct (byKey key x y <=? 0)%Z eqn:E; [reflexivity|].
  unfold byKey in E. apply Z.leb_gt in E.
  simpl in *. rewrite IH.
  destruct (key x =? k)%Z eqn:Ex; destruct (key y =? k)%Z eqn:Ey;
    try reflexivity.
  apply Z.eqb_eq in Ex, Ey. lia.
Qed.

Lemma sort_stable (k : Z) (l : list X) :
  filter (fun y => (key y =? k)%Z) (sort (byKey key) l)
  = filter (fun y => (key y =? k)%Z) l.
Proof.
  induction l as [|x l IH]; [reflexivity|].
  simpl sort. rewrite insert_stable. simpl. now rewrite IH.
Qed.

End SortByKey.

End SortFacts.

(** ** The comparison page *)

Lemma filterNonNull_In (X : Type) (x : X) (l : list (option X)) :
  In x (filterNonNull l) <-> In (Some x) l.
Proof.
  induction l as [|[y|] l IH]; simpl; [tauto | | ].
  - rewrite IH. split; intros [H|H]; auto; left; congruence.
  - rewrite IH. split; [auto | intros [H|H]; [discriminate | assumption]].
Qed.

Lemma filterNonNull_length (X Y : Type) (f : X -> option Y) (l : list X) :
  (forall x, In x l -> f x <> None) ->
  length (filterNonNull (map f l)) = length l.
Proof.
  induction l as [|x l IH]; simpl; intros H; [reflexivity|].
  destruct (f x) as [r|] eqn:E; [|now destruct (H x (or_introl eq_refl))].
  simpl. rewrite IH; [reflexivity|]. intros x' Hx'. apply H. now right.
Qed.

(** [findActual] returns an element of the list with the driver identifier
    of the prediction. *)
Lemma findActual_Some (actuals : list (option ActualResult.t))
  (pred : DriverPrediction.t) (actual : ActualResult.t) :
  findActual actuals pred = Some actual ->
  In (Some actual) actuals /\
  ActualResult.driverRef actual = DriverPrediction.driverRef pred.
Proof.
  unfold findActual. destruct (find _ actuals) as [[a|]|] eqn:F;
    try discriminate.
  intros H. injection H as ->. apply find_some in F as [Hin E].
  split; [assumption | now apply eqb_eq].
Qed.

(** It returns nothing exactly when no element has that identifier. *)
Lemma findActual_None (actuals : list (option ActualResult.t))
  (pred : DriverPrediction.t) :
  findActual actuals pred = None <->
  (forall a, In (Some a) actuals ->
             ActualResult.driverRef a <> DriverPrediction.driverRef pred).
Proof.
  unfold findActual. split.
  - destruct (find _ actuals) as [[a|]|] eqn:F; try discriminate.
    + apply find_some in F as [_ F]. discriminate.
    + intros _ a Hin E. apply (find_none _ _ F) in Hin.
      apply eqb_eq in E. congruence.
  - intros H. destruct (find _ actuals) as [[a|]|] eqn:F; try reflexivity.
    apply find_some in F as [Hin E]. apply eqb_eq in E.
    now destruct (H a Hin).
Qed.

Lemma comparisonRow_Some (actuals : list (option ActualResult.t))
  (p : option DriverPrediction.t) (row : ComparisonRow.t) :
  comparisonRow actuals p = Some row ->
  exists pred actual,
    p = Some pred /\ findActual actuals pred = Some actual /\
    row = ComparisonRow.mk
            (DriverPrediction.driverRef pred)
            (DriverPrediction.team pred)
            (DriverPrediction.predicted_position pred)
            (ActualResult.finish_position actual)
            (DriverPrediction.predicted_position pred
             - ActualResult.finish_position actual)
            (Z.abs (DriverPrediction.predicted_position pred
                    - ActualResult.finish_position actual)).
Proof.
  unfold comparisonRow. destruct p as [pred|]; [|discriminate].
  destruct (findActual actuals pred) as [actual|] eqn:F; [|discriminate].
  intros H. injection H as <-. now exists pred, actual.
Qed.

(** The rows of the table are the rows built from the predictions. *)
Lemma comparisonTable_In (data : ComparisonData) (row : ComparisonRow.t) :
  In row (comparisonTable data) <->
  exists actuals p,
    actual_results data = Some actuals /\
    In p (predictions data) /\ comparisonRow actuals p = Some row.
Proof.
  unfold comparisonTable. destruct (actual_results data) as [actuals|].
  - rewrite sort_In, filterNonNull_In, in_map_iff. split.
    + intros [p [E Hin]]. now exists actuals, p.
    + intros [actuals' [p [E [Hin Hrow]]]]. injection E as <-. now exists p.
  - simpl. split; [tauto|]. intros [? [? [E _]]]. discriminate.
Qed.

Example scenario_comparisonTable :
  comparisonTable scenario = [scenarioRowB; scenarioRowA].
Proof. reflexivity. Qed.

Example scenarioWithUnmatched_comparisonTable :
  comparisonTable scenarioWithUnmatched = [scenarioRowB; scenarioRowA].
Proof. reflexivity. Qed.



(** C4.  Every record of the comparison carries the predicted position of
    its prediction and the finishing position of the result found for it;
    its signed error is that predicted position minus that finishing
    position, sign kept, and its absolute error is the absolute value of the
    difference.  Every matched prediction has this record in the
    comparison. *)
Theorem comparisonTable_error (data : ComparisonData) :
  (forall row,
     In row (comparisonTable data) ->
     (exists actuals pred actual,
        actual_results data = Some actuals /\
        In (Some pred) (predictions data) /\
        findActual actuals pred = Some actual /\
        ComparisonRow.driver row = DriverPrediction.driverRef pred /\
        ComparisonRow.predicted row
          = DriverPrediction.predicted_position pred /\
        ComparisonRow.actual row = ActualResult.finish_position actual /\
        ComparisonRow.error row
          = (DriverPrediction.predicted_position pred
             - ActualResult.finish_position actual)%Z /\
        ComparisonRow.absError row
          = Z.abs (DriverPrediction.predicted_position pred
                   - ActualResult.finish_position actual)) /\
     ComparisonRow.error row
       = (ComparisonRow.predicted row - ComparisonRow.actual row)%Z /\
     ComparisonRow.absError row
       = Z.abs (ComparisonRow.predicted row - ComparisonRow.actual row)) /\
  (forall actuals pred actual,
     actual_results data = Some actuals ->
     In (Some pred) (predictions data) ->
     findActual actuals pred = Some actual ->
     In (ComparisonRow.mk
           (DriverPrediction.driverRef pred)
           (DriverPrediction.team pred)
           (DriverPrediction.predicted_position pred)
           (ActualResult.finish_position actual)
           (DriverPrediction.predicted_position pred
            - ActualResult.finish_position actual)
           (Z.abs (DriverPrediction.predicted_position pred
                   - ActualResult.finish_position actual)))
        (comparisonTable data)).
Proof.
  split.
  - intros row Hin.
    apply comparisonTable_In in Hin as [actuals [p [Hact [Hp Hrow]]]].
    apply comparisonRow_Some in Hrow as [pred [actual [-> [F ->]]]].
    simpl. split; [|split; reflexivity].
    exists actuals, pred, actual. repeat split; assumption.
  - intros actuals pred actual Hact Hp F.
    apply comparisonTable_In. exists actuals, (Some pred).
    split; [assumption|]. split; [assumption|].
    unfold comparisonRow. now rewrite F.
Qed.

Lemma comparisonTable_error_witness :
  In scenarioRowFiveThree (comparisonTable scenarioFiveThree) /\
  (exists actuals pred actual,
     actual_results scenarioFiveThree = Some actuals /\
     In (Some pred) (predictions scenarioFiveThree) /\
     findActual actuals pred = Some actual /\
     ComparisonRow.driver scenarioRowFiveThree
       = DriverPrediction.driverRef pred /\
     ComparisonRow.predicted scenarioRowFiveThree
       = DriverPrediction.predicted_position pred /\
     ComparisonRow.actual scenarioRowFiveThree
       = ActualResult.finish_position actual /\
     ComparisonRow.error scenarioRowFiveThree
       = (DriverPrediction.predicted_position pred
          - ActualResult.finish_position actual)%Z /\
     ComparisonRow.absError scenarioRowFiveThree
       = Z.abs (DriverPrediction.predicted_position pred
                - ActualResult.finish_position actual)) /\
  ComparisonRow.error scenarioRowFiveThree = 2%Z /\
  ComparisonRow.absError scenarioRowFiveThree = 2%Z.
Proof.
  split; [left; reflexivity|]. split; [|split; reflexivity].
  apply (proj1 (comparisonTable_error scenarioFiveThree)
           scenarioRowFiveThree).
  left; reflexivity.
Defined.

(** C6.  Every record of the comparison is built from a prediction and the
    actual result found for its driver identifier, so the identifier occurs
    in both lists; a prediction whose identifier occurs in no actual result
    gives no record, and the comparison is computed all the same. *)
Theorem comparisonTable_only_matched (data : ComparisonData) :
  (forall row, In row (comparisonTable data) ->
     exists actuals pred actual,
       actual_results data = Some actuals /\
       In (Some pred) (predictions data) /\
       In (Some actual) actuals /\
       DriverPrediction.driverRef pred = ComparisonRow.driver row /\
       ActualResult.driverRef actual = ComparisonRow.driver row) /\
  (forall actuals pred,
     actual_results data = Some actuals ->
     (forall a, In (Some a) actuals ->
        ActualResult.driverRef a <> DriverPrediction.driverRef pred) ->
     comparisonRow actuals (Some pred) = None /\
     forall row, In row (comparisonTable data) ->
       ComparisonRow.driver row <> DriverPrediction.driverRef pred).
Proof.
  split.
  - intros row Hin.
    apply comparisonTable_In in Hin as [actuals [p [Hact [Hp Hrow]]]].
    apply comparisonRow_Some in Hrow as [pred [actual [-> [F ->]]]].
    apply findActual_Some in F as [Hin Href].
    exists actuals, pred, actual. simpl. auto.
  - intros actuals pred Hact Hno. split.
    + unfold comparisonRow.
      now rewrite (proj2 (findActual_None actuals pred) Hno).
    + intros row Hin Heq.
      apply comparisonTable_In in Hin as [actuals' [p [Hact' [Hp Hrow]]]].
      rewrite Hact in Hact'. injection Hact' as <-.
      apply comparisonRow_Some in Hrow as [pred' [actual [-> [F ->]]]].
      apply findActual_Some in F as [Hin Href]. simpl in Heq.
      apply (Hno actual Hin). congruence.
Qed.

Lemma comparisonTable_only_matched_witness :
  In scenarioRowB (comparisonTable scenarioWithUnmatched) /\
  exists actuals pred actual,
    actual_results scenarioWithUnmatched = Some actuals /\
    In (Some pred) (predictions scenarioWithUnmatched) /\
    In (Some actual) actuals /\
    DriverPrediction.driverRef pred = ComparisonRow.driver scenarioRowB /\
    ActualResult.driverRef actual = ComparisonRow.driver scenarioRowB.
Proof.
  split; [left; reflexivity|].
  apply (proj1 (comparisonTable_only_matched scenarioWithUnmatched)).
  left; reflexivity.
Defined.

(** C5.  Without actual results the comparison is empty for every list of
    predictions, a non-empty one included, and there is no summary; the page
    then shows the predictions alone, which is one of its regular
    sections. *)
Theorem comparison_without_actual_results (data : ComparisonData) :
  actual_results data = None ->
  predictions data <> [] ->
  comparisonTable data = [] /\
  scatterData data = [] /\
  buildComparison (predictions data) None = ([], None) /\
  showComparisonTable data = false /\
  showScatterPlot data = false /\
  showPredictionsOnly data = true.
Proof.
  intros Hact Hne.
  unfold showComparisonTable, showScatterPlot, showPredictionsOnly,
    comparisonTable, scatterData.
  rewrite Hact. repeat split.
  destruct (predictions data); [contradiction | reflexivity].
Qed.

Lemma comparison_without_actual_results_witness :
  actual_results scenarioBeforeRace = None /\
  comparisonTable scenarioBeforeRace = [] /\
  scatterData scenarioBeforeRace = [] /\
  buildComparison (predictions scenarioBeforeRace) None = ([], None) /\
  showComparisonTable scenarioBeforeRace = false /\
  showScatterPlot scenarioBeforeRace = false /\
  showPredictionsOnly scenarioBeforeRace = true.
Proof.
  split; [reflexivity|].
  apply (comparison_without_actual_results scenarioBeforeRace);
    [reflexivity | discriminate].
Defined.

(** ** The accuracy summary *)

Lemma countWithin_bounds (k : Z) (rows : list ComparisonRow.t) :
  (0 <= countWithin k rows <= Z.of_nat (length rows))%Z.
Proof.
  unfold countWithin. split; [lia|].
  apply inj_le. apply filter_length_le.
Qed.

Lemma rateOf_zero_total (count : Z) : rateOf count 0 = 0.
Proof. reflexivity. Qed.

Lemma rateOf_quotient (count total : Z) :
  (0 < total)%Z -> rateOf count total == inject_Z count / inject_Z total.
Proof.
  intros H. unfold rateOf.
  destruct (total =? 0)%Z eqn:E; [apply Z.eqb_eq in E; lia | reflexivity].
Qed.

Lemma rateOf_bounds (count total : Z) :
  (0 <= count <= total)%Z -> 0 <= rateOf count total <= 1.
Proof.
  intros [H0 H1]. unfold rateOf.
  destruct (total =? 0)%Z eqn:E; [split; discriminate|].
  apply Z.eqb_neq in E.
  assert (0 < inject_Z total) as Hpos.
  { change (inject_Z 0 < inject_Z total). rewrite <- Zlt_Qlt. lia. }
  split.
  - apply Qle_shift_div_l; [assumption|]. rewrite Qmult_0_l.
    change (inject_Z 0 <= inject_Z count). now rewrite <- Zle_Qle.
  - apply Qle_shift_div_r; [assumption|]. rewrite Qmult_1_l.
    now rewrite <- Zle_Qle.
Qed.

(** The page shows the accuracy section only for a summary over at least
    one driver. *)
Lemma showAccuracyMetrics_iff (data : ComparisonData) :
  showAccuracyMetrics data = true <->
  exists a, accuracy data = Some a /\ (0 < Accuracy.total_drivers a)%Z.
Proof.
  unfold showAccuracyMetrics. destruct (accuracy data) as [a|].
  - rewrite Z.ltb_lt. split; [intros H; now exists a|].
    intros [a' [E H]]. now injection E as <-.
  - split; [discriminate|]. intros [a [E _]]. discriminate.
Qed.

Lemma meanOf_empty : meanOf [] = 0.
Proof. reflexivity. Qed.

(** The scenario of the specification: MAE 1, no exact match, both drivers
    within one position. *)
Example scenario_accuracySummary :
  Accuracy.mae (accuracySummary (comparisonTable scenario)) == 1 /\
  Accuracy.exact_matches (accuracySummary (comparisonTable scenario)) = 0%Z /\
  Accuracy.within_one (accuracySummary (comparisonTable scenario)) = 2%Z /\
  Accuracy.within_one_rate (accuracySummary (comparisonTable scenario)) == 1.
Proof. repeat split. Qed.

(** C7.  In the accuracy summary the three rates lie between 0 and 1, each
    rate is its count divided by the number of matched drivers, and when no
    driver is matched the MAE, the RMSE and the three rates are 0. *)
Theorem accuracySummary_rates (rows : list ComparisonRow.t) :
  Accuracy.total_drivers (accuracySummary rows) = Z.of_nat (length rows) /\
  (0 <= Accuracy.exact_match_rate (accuracySummary rows) <= 1 /\
   0 <= Accuracy.within_one_rate (accuracySummary rows) <= 1 /\
   0 <= Accuracy.within_three_rate (accuracySummary rows) <= 1) /\
  ((0 < Accuracy.total_drivers (accuracySummary rows))%Z ->
   Accuracy.exact_match_rate (accuracySummary rows)
     == inject_Z (Accuracy.exact_matches (accuracySummary rows))
        / inject_Z (Accuracy.total_drivers (accuracySummary rows)) /\
   Accuracy.within_one_rate (accuracySummary rows)
     == inject_Z (Accuracy.within_one (accuracySummary rows))
        / inject_Z (Accuracy.total_drivers (accuracySummary rows)) /\
   Accuracy.within_three_rate (accuracySummary rows)
     == inject_Z (Accuracy.within_three (accuracySummary rows))
        / inject_Z (Accuracy.total_drivers (accuracySummary rows))) /\
  (Accuracy.total_drivers (accuracySummary rows) = 0%Z ->
   Accuracy.mae (accuracySummary rows) = 0 /\
   Accuracy.rmse (accuracySummary rows) = 0%R /\
   Accuracy.exact_match_rate (accuracySummary rows) = 0 /\
   Accuracy.within_one_rate (accuracySummary rows) = 0 /\
   Accuracy.within_three_rate (accuracySummary rows) = 0).
Proof.
  simpl. split; [reflexivity|]. split; [|split].
  - repeat split; apply rateOf_bounds; apply countWithin_bounds.
  - intros Hpos. repeat split; now apply rateOf_quotient.
  - intros Hzero. rewrite Hzero.
    assert (rows = []) as -> by (destruct rows; [reflexivity | discriminate]).
    repeat split.
Qed.

Lemma accuracySummary_rates_witness :
  (0 < Accuracy.total_drivers (accuracySummary (comparisonTable scenario)))%Z /\
  Accuracy.within_one_rate (accuracySummary (comparisonTable scenario))
    == inject_Z (Accuracy.within_one
                   (accuracySummary (comparisonTable scenario)))
       / inject_Z (Accuracy.total_drivers
                     (accuracySummary (comparisonTable scenario))).
Proof.
  split; [reflexivity|].
  apply (accuracySummary_rates (comparisonTable scenario)).
  reflexivity.
Defined.

(** * Further functions of the program *)

(** ** More built-ins *)

(** The WhiteSpace and LineTerminator code units, which [trim] strips. *)
Definition isWhiteSpace (c : N) : bool :=
  ((9 <=? c) && (c <=? 13) || (c =? 32) || (c =? 160) || (c =? 5760) ||
   (8192 <=? c) && (c <=? 8202) || (c =? 8232) || (c =? 8233) ||
   (c =? 8239) || (c =? 8287) || (c =? 12288) || (c =? 65279))%N.

Fixpoint trimStart (s : jsstring) : jsstring :=
  match s with
  | [] => []
  | c :: s' => if isWhiteSpace c then trimStart s' else s
  end.

Definition trimEnd (s : jsstring) : jsstring := rev (trimStart (rev s)).

(** [s.trim()]. *)
Definition trim (s : jsstring) : jsstring := trimEnd (trimStart s).

(** [s.substring(0, n)] and [xs.slice(0, n)]. *)
Definition substring0 (n : nat) (s : jsstring) : jsstring := firstn n s.
Definition slice0 {X : Type} (n : nat) (xs : list X) : list X := firstn n xs.

(** [s.replace('_', ' ')]: with a string as pattern only the first
    occurrence is replaced. *)
Fixpoint replaceFirstUnderscore (s : jsstring) : jsstring :=
  match s with
  | [] => []
  | c :: s' =>
      if (c =? 95)%N then 32%N :: s' else c :: replaceFirstUnderscore s'
  end.

(** [xs.map((x, index) => f(index, x))], the indices starting at [i]. *)
Fixpoint mapFrom {X Y : Type} (f : nat -> X -> Y) (i : nat) (xs : list X)
  : list Y :=
  match xs with
  | [] => []
  | x :: xs' => f i x :: mapFrom f (S i) xs'
  end.

Definition mapi {X Y : Type} (f : nat -> X -> Y) (xs : list X) : list Y :=
  mapFrom f 0 xs.

(** [xs.filter((_, i) => i !== index)], the indices starting at [i]. *)
Fixpoint removeFrom {X : Type} (index i : nat) (xs : list X) : list X :=
  match xs with
  | [] => []
  | x :: xs' =>
      if (i =? index)%nat then removeFrom index (S i) xs'
      else x :: removeFrom index (S i) xs'
  end.

(** [Record<string, string>] built by an object literal. *)
Definition StringTable : Type := list (jsstring * jsstring).

(** What [table[key] || fallback] can be before the fallback is taken: a
    string of the table, or the member that the table inherits from
    [Object.prototype] under that name; [None] when the read is falsy. *)
Inductive StringValue : Type :=
| SString : jsstring -> StringValue
| SInherited : jsstring -> StringValue.

Definition getTruthy (table : StringTable) (key : jsstring)
  : option StringValue :=
  match find (fun entry => eqb (fst entry) key) table with
  | Some (_, v) => if isEmpty v then None else Some (SString v)
  | None =>
      if existsb (eqb key) Object_prototype_members
      then Some (SInherited key)
      else None
  end.

(** ** The module [utils/images], continued *)

(** Driver portrait mapping. *)
Definition portraitMap : StringTable :=
  [
    (str "max_verstappen", str "MaxVerstappen1.png");
    (str "lewis_hamilton", str "LewisHamilton44.png");
    (str "charles_leclerc", str "CharlesLeclerc16.png");
    (str "carlos_sainz", str "CarlosSainz55.png");
    (str "lando_norris", str "LandoNorris4.png");
    (str "george_russell", str "GeorgeRussel63.png");
    (str "george_russel", str "GeorgeRussel63.png");  (* Handle typo variant *)
    (str "alexander_albon", str "AlexanderAlbon23.png");
    (str "esteban_ocon", str "EstebanOcon31.png");
    (str "fernando_alonso", str "FernandoAlonso14.png");
    (str "franco_colapinto", str "FrancoColapinto43.png");
    (str "gabriel_bortoleto", str "GabrielBortoleto5.png");
    (str "isack_hadjar", str "IsackHadjar6.png");
    (str "jack_doohan", str "JackDoohan7.png");
    (str "kimi_antonelli", str "KimiAntonelli12.png");
    (str "lance_stroll", str "LanceStroll18.png");
    (str "liam_lawson", str "LiamLawson30.png");
    (str "nico_hulkenberg", str "NicoHulkenberg27.png");
    (str "oliver_bearman", str "OliverBearman87.png");
    (str "oscar_piastri", str "OscarPiastri81.png");
    (str "pierre_gasly", str "PierreGasly10.png");
    (str "yuki_tsunoda", str "YukiTsunoda22.png")
  ].

(** Team logo mapping. *)
Definition teamMap : StringTable :=
  [
    (str "red bull racing", str "2025redbullracinglogowhite.webp.avif");
    (str "red bull", str "2025redbullracinglogowhite.webp.avif");
    (str "redbull", str "2025redbullracinglogowhite.webp.avif");
    (str "racing bulls", str "2025racingbullslogowhite.webp.avif");
    (str "rb", str "2025racingbullslogowhite.webp.avif");
    (str "alphatauri", str "2025racingbullslogowhite.webp.avif");
    (str "vcarb", str "2025racingbullslogowhite.webp.avif");
    (str "ferrari", str "2025ferrarilogowhite.webp.avif");
    (str "mercedes", str "2025mercedeslogowhite.webp.avif");
    (str "mclaren", str "2025mclarenlogowhite.webp.avif");
    (str "aston martin", str "2025astonmartinlogowhite.webp.avif");
    (str "aston martin f1", str "2025astonmartinlogowhite.webp.avif");
    (str "alpine", str "2025alpinelogowhite.webp.avif");
    (str "williams", str "2025williamslogowhite.webp.avif");
    (str "haas", str "2025haasf1teamlogowhite.webp.avif");
    (str "haas f1 team", str "2025haasf1teamlogowhite.webp.avif");
    (str "sauber", str "2025kicksauberlogowhite.webp.avif");
    (str "kick sauber", str "2025kicksauberlogowhite.webp.avif");
    (str "stake f1 team", str "2025kicksauberlogowhite.webp.avif")
  ].

Section Images.

Variable toLowerCase : jsstring -> jsstring.

(** [None] is [null]. *)
Definition getDriverPortrait (driverRef : jsstring) : option StringValue :=
  let normalizedRef := toLowerCase driverRef in
  getTruthy portraitMap normalizedRef.

Definition getTeamLogo (teamName : jsstring) : option StringValue :=
  let normalizedName := trim (toLowerCase teamName) in
  getTruthy teamMap normalizedName.

End Images.

(** ** The component [ComparePage], continued *)

Definition getErrorColor (error : Z) : jsstring :=
  if (error =? 0)%Z then str "text-green-600 dark:text-green-400"
  else if (Z.abs error <=? 1)%Z then str "text-yellow-600 dark:text-yellow-400"
  else if (Z.abs error <=? 3)%Z then str "text-orange-600 dark:text-orange-400"
  else str "text-red-600 dark:text-red-400".

(** The [fill] of the cell of an entry of [scatterData]. *)
Definition cellFill (entry : ScatterPoint.t) : jsstring :=
  if (ScatterPoint.error entry =? 0)%Z then str "#16A34A"
  else if (ScatterPoint.error entry <=? 1)%Z then str "#F59E0B"
  else str "#DC2626".

(** The driver cell of a row of the table:
    [row.driver.replace('_', ' ').replace(/\b\w/g, l => l.toUpperCase())]. *)
Definition rowDriverLabel (driver : jsstring) : jsstring :=
  capitalizeMatches false (replaceFirstUnderscore driver).

(** The guard of the last section,
    [!data.predictions || data.predictions.length === 0 && (...)]:
    [data.predictions] is an array, so the first disjunct is [false]. *)
Definition showNoPredictions (data : ComparisonData) : bool :=
  (length (predictions data) =? 0)%nat.

(** ** The component [Home] *)

Module Driver.
Record t : Type := mk {
  driverRef : jsstring;
  driver_name : jsstring;
  total_races : Z;
  predicted_wins : Z;
  current_team : option jsstring
}.
End Driver.

(** [interface CustomDriver]; the abbreviation is what the read of
    [DRIVER_ABBREVIATIONS] or its fallback gave. *)
Module CustomDriver.
Record t : Type := mk {
  driverRef : jsstring;
  driver_abbreviation : StringValue;
  team : jsstring;
  grid_position : Z;
  recent_form : option Q
}.
End CustomDriver.

(** Driver abbreviations mapping (3-letter codes). *)
Definition DRIVER_ABBREVIATIONS : StringTable :=
  [
    (str "max_verstappen", str "VER");
    (str "lewis_hamilton", str "HAM");
    (str "charles_leclerc", str "LEC");
    (str "carlos_sainz", str "SAI");
    (str "lando_norris", str "NOR");
    (str "george_russell", str "RUS");
    (str "alexander_albon", str "ALB");
    (str "esteban_ocon", str "OCO");
    (str "fernando_alonso", str "ALO");
    (str "lance_stroll", str "STR");
    (str "pierre_gasly", str "GAS");
    (str "yuki_tsunoda", str "TSU");
    (str "nico_hulkenberg", str "HUL");
    (str "oscar_piastri", str "PIA");
    (str "valtteri_bottas", str "BOT");
    (str "guanyu_zhou", str "ZHO");
    (str "kevin_magnussen", str "MAG");
    (str "daniel_ricciardo", str "RIC");
    (str "liam_lawson", str "LAW");
    (str "oliver_bearman", str "BEA");
    (str "kimi_antonelli", str "ANT");
    (str "jack_doohan", str "DOO");
    (str "isack_hadjar", str "HAD");
    (str "gabriel_bortoleto", str "BOR");
    (str "franco_colapinto", str "COL")
  ].

Inductive SearchMode : Type :=
| ModeSelect : SearchMode
| ModeCustom : SearchMode.

(** The body of the request to [/predict/custom]; [None] is [undefined]. *)
Module CustomRequest.
Record t : Type := mk {
  race_name : option jsstring;
  circuit_name : option jsstring;
  race_date : option jsstring;
  drivers : list CustomDriver.t
}.
End CustomRequest.

(** What [handlePredict] does before it awaits the response. *)
Inductive PredictAction : Type :=
| FetchPrediction : Z -> PredictAction
| PostCustom : CustomRequest.t -> PredictAction
| SetError : jsstring -> PredictAction.

(** [s || undefined] on a string. *)
Definition orUndefined (s : option jsstring) : option jsstring :=
  match s with
  | Some s' => if isEmpty s' then None else Some s'
  | None => None
  end.

(** [new Set(xs).size]. *)
Definition setSize (xs : list Z) : nat := length (nodup Z.eq_dec xs).

Section Home.

Variable toUpperCase : jsstring -> jsstring.

(** The entry of the lineup made from a driver of the service. *)
Definition customDriverOf (d : Driver.t) (grid_position : Z)
  : CustomDriver.t :=
  CustomDriver.mk
    (Driver.driverRef d)
    (match getTruthy DRIVER_ABBREVIATIONS (Driver.driverRef d) with
     | Some v => v
     | None => SString (toUpperCase (substring0 3 (Driver.driverRef d)))
     end)
    (match Driver.current_team d with
     | Some t => if isEmpty t then str "Unknown" else t
     | None => str "Unknown"
     end)
    grid_position
    None.

(** Initialize custom drivers with all available drivers ([loadDrivers]);
    [None] is a response without [drivers]. *)
Definition initialDrivers (drivers : option (list Driver.t))
  : list CustomDriver.t :=
  mapi (fun index d => customDriverOf d (Z.of_nat index + 1))
    (slice0 20 (match drivers with Some ds => ds | None => [] end)).

(** The button "+ Add Driver". *)
Definition addDriver (drivers : list Driver.t)
  (customDrivers : list CustomDriver.t) : list CustomDriver.t :=
  let existingRefs := map CustomDriver.driverRef customDrivers in
  match
    find (fun d => negb (existsb (eqb (Driver.driverRef d)) existingRefs))
      drivers
  with
  | Some availableDriver =>
      customDrivers ++
        [customDriverOf availableDriver
           (Z.of_nat (length customDrivers) + 1)]
  | None => customDrivers
  end.

End Home.

(** The button "Remove" of the entry at [index]. *)
Definition removeDriver (index : nat) (customDrivers : list CustomDriver.t)
  : list CustomDriver.t :=
  removeFrom index 0 customDrivers.

(** [Math.max(1, Math.min(20, parseInt(e.target.value) || 1))]; [parsed] is
    the result of [parseInt], [None] for [NaN]. *)
Definition clampGridPosition (parsed : option Z) : Z :=
  Z.max 1
    (Z.min 20
       (match parsed with
        | Some n => if (n =? 0)%Z then 1%Z else n
        | None => 1%Z
        end)).

(** The change handler of the grid position of the entry at [index]. *)
Definition setGridPosition (index : nat) (parsed : option Z)
  (customDrivers : list CustomDriver.t) : list CustomDriver.t :=
  let pos := clampGridPosition parsed in
  mapi (fun i d =>
          if (i =? index)%nat
          then CustomDriver.mk (CustomDriver.driverRef d)
                 (CustomDriver.driver_abbreviation d) (CustomDriver.team d)
                 pos (CustomDriver.recent_form d)
          else d)
    customDrivers.

(** [handlePredict], up to the request it sends. *)
Definition handlePredict (searchMode : SearchMode)
  (selectedRaceId : option Z) (customDrivers : list CustomDriver.t)
  (availableRaces : list RaceInfo) (scenarioRaceId : option Z)
  : PredictAction :=
  match searchMode, selectedRaceId with
  | ModeSelect, Some id =>
      if (id =? 0)%Z then SetError (str "Please select a mode")
      else FetchPrediction id
  | ModeSelect, None => SetError (str "Please select a mode")
  | ModeCustom, _ =>
      if (length customDrivers =? 0)%nat
      then SetError (str "Please add at least one driver")
      else
        let gridPositions := map CustomDriver.grid_position customDrivers in
        if negb (setSize gridPositions =? length gridPositions)%nat
        then SetError (str "Grid positions must be unique for each driver")
        else
          let selectedRace :=
            find (fun r =>
                    match scenarioRaceId with
                    | Some id => (raceId r =? id)%Z
                    | None => false
                    end) availableRaces in
          PostCustom
            (CustomRequest.mk
               (orUndefined (option_map name selectedRace))
               (orUndefined (option_map circuit selectedRace))
               (orUndefined (option_map date selectedRace))
               (map (fun d =>
                       CustomDriver.mk (CustomDriver.driverRef d)
                         (CustomDriver.driver_abbreviation d)
                         (CustomDriver.team d)
                         (CustomDriver.grid_position d)
                         (match CustomDriver.recent_form d with
                          | Some f => if Qeq_bool f 0 then None else Some f
                          | None => None
                          end))
                  customDrivers))
  end.

(** The [disabled] attribute of the button that calls [handlePredict]. *)
Definition predictDisabled (loading : bool) (searchMode : SearchMode)
  (selectedRaceId : option Z) (customDrivers : list CustomDriver.t) : bool :=
  loading ||
  match searchMode with
  | ModeSelect =>
      match selectedRaceId with
      | Some id => (id =? 0)%Z
      | None => true
      end
  | ModeCustom => (length customDrivers =? 0)%nat
  end.

(** ** The component [DriverProfilePage] *)

Module CircuitPerformance.
Record t : Type := mk {
  circuit : jsstring;
  avg_position : Q;
  best_position : Q;
  races : Z
}.
End CircuitPerformance.

(** An entry of [circuitData]. *)
Module CircuitBar.
Record t : Type := mk {
  circuit : jsstring;
  avg_position : Q;
  races : Z
}.
End CircuitBar.

(** [None] is a profile without [performance_by_circuit]. *)
Definition circuitData
  (performance_by_circuit : option (list CircuitPerformance.t))
  : list CircuitBar.t :=
  map (fun c =>
         CircuitBar.mk
           (if (15 <? length (CircuitPerformance.circuit c))%nat
            then substring0 15 (CircuitPerformance.circuit c) ++ str "..."
            else CircuitPerformance.circuit c)
           (CircuitPerformance.avg_position c)
           (CircuitPerformance.races c))
    (slice0 10
       (match performance_by_circuit with
        | Some cs => cs
        | None => []
        end)).

(** * Further properties *)

(** ** [findKey] and [getRaceCoordinates] *)

Lemma COUNTRY_COORDINATES_keys_latin1 :
  forallb isLatin1 (keys COUNTRY_COORDINATES) = true.
Proof. vm_compute. reflexivity. Qed.

Lemma COUNTRY_COORDINATES_keys_nonempty :
  forallb (fun k => negb (isEmpty k)) (keys COUNTRY_COORDINATES) = true.
Proof. vm_compute. reflexivity. Qed.

Lemma COUNTRY_COORDINATES_lower_keys_distinct :
  NoDup (map toLowerCaseLatin1 (keys COUNTRY_COORDINATES)).
Proof. apply distinct_NoDup. vm_compute. reflexivity. Qed.

(** No name inherited from [Object.prototype] is a country key up to
    case. *)
Lemma COUNTRY_COORDINATES_no_inherited_name :
  forallb (fun m =>
             negb (existsb (eqb (toLowerCaseLatin1 m))
                     (map toLowerCaseLatin1 (keys COUNTRY_COORDINATES))))
    Object_prototype_members = true.
Proof. vm_compute. reflexivity. Qed.

Lemma Object_prototype_members_latin1 :
  forallb isLatin1 Object_prototype_members = true.
Proof. vm_compute. reflexivity. Qed.

Section FindKeyMore.

Variable toLowerCase : jsstring -> jsstring.

Lemma find_snd_In (p : jsstring * Coordinates -> bool)
  (mapping : CoordinateTable) (c : Coordinates) :
  option_map snd (find p mapping) = Some c ->
  exists key, In (key, c) mapping /\ p (key, c) = true.
Proof.
  destruct (find p mapping) as [[k c']|] eqn:F; [|discriminate].
  simpl. intros H. injection H as ->. apply find_some in F. now exists k.
Qed.

(** X1.  [findKey] returns [null] exactly for the empty search value and
    for a search value that no key of the table matches, neither exactly
    nor as a substring in either direction. *)
Theorem findKey_None_iff (searchValue : jsstring)
  (mapping : CoordinateTable) :
  findKey toLowerCase searchValue mapping = None <->
  searchValue = [] \/ matchesNoKey toLowerCase searchValue mapping = true.
Proof.
  split.
  - intros H. destruct searchValue as [|c s]; [now left|]. right.
    unfold findKey in H. simpl isEmpty in H. cbv zeta in H.
    unfold exactMatch, partialMatch in H.
    destruct (find _ mapping) as [e|] eqn:F1 in H; [discriminate|].
    simpl in H.
    destruct (find _ mapping) as [e|] eqn:F2 in H; [discriminate|].
    unfold matchesNoKey, keys. apply forallb_forall. intros k Hk.
    apply in_map_iff in Hk as [e [<- He]].
    apply (find_none _ _ F1) in He as H1.
    apply (find_none _ _ F2) in He as H2.
    unfold matchesKey. cbv zeta in *. rewrite H1.
    apply orb_false_iff in H2 as [-> ->]. reflexivity.
  - intros [-> | H]; [reflexivity | now apply findKey_matchesNoKey].
Qed.

(** X2.  Coordinates returned by [findKey] are those of a key of the table
    that matches the search value, and the search value is not empty. *)
Theorem findKey_Some_matches (searchValue : jsstring)
  (mapping : CoordinateTable) (c : Coordinates) :
  findKey toLowerCase searchValue mapping = Some c ->
  searchValue <> [] /\
  exists key, In (key, c) mapping /\
              matchesKey toLowerCase searchValue key = true.
Proof.
  unfold findKey. destruct searchValue as [|u s]; [discriminate|].
  simpl isEmpty. cbv zeta. intros H. split; [discriminate|].
  unfold matchesKey. cbv zeta.
  destruct (exactMatch toLowerCase _ mapping) as [c'|] eqn:E.
  - injection H as ->. apply find_snd_In in E as [key [Hin Hp]].
    exists key. split; [assumption|]. simpl in Hp. now rewrite Hp.
  - apply find_snd_In in H as [key [Hin Hp]].
    exists key. split; [assumption|]. simpl in Hp.
    apply orb_true_iff in Hp as [-> | ->];
      [now rewrite orb_true_r | now rewrite !orb_true_r].
Qed.

(** X3.  The result of [getRaceCoordinates] is never made up: it is a
    coordinate of the circuit table, a coordinate of the country table, the
    default, or the member inherited under the name of the country. *)
Theorem getRaceCoordinates_range (race : RaceInfo) :
  (exists c, getRaceCoordinates toLowerCase race = VCoords c /\
             (In c (map snd CIRCUIT_COORDINATES) \/
              In c (map snd COUNTRY_COORDINATES) \/
              c = coords 20 0)) \/
  (existsb (eqb (country race)) Object_prototype_members = true /\
   getRaceCoordinates toLowerCase race = VInherited (country race)).
Proof.
  unfold getRaceCoordinates.
  destruct (findKey toLowerCase (circuit race) _) as [c|] eqn:F1.
  { left. exists c. split; [reflexivity|]. left.
    apply findKey_Some_matches in F1 as [_ [key [Hin _]]].
    apply in_map_iff. now exists (key, c). }
  destruct (findKey toLowerCase (location race) _) as [c|] eqn:F2.
  { left. exists c. split; [reflexivity|]. left.
    apply findKey_Some_matches in F2 as [_ [key [Hin _]]].
    apply in_map_iff. now exists (key, c). }
  destruct (getProperty_cases toLowerCase COUNTRY_COORDINATES (country race))
    as [[c [Hown ->]] | [[_ [Hin ->]] | [_ [_ ->]]]]; cbn [truthy].
  - left. exists c. split; [reflexivity|]. right; left.
    unfold ownProperty in Hown.
    apply find_snd_In in Hown as [key [Hin _]].
    apply in_map_iff. now exists (key, c).
  - right. now split.
  - left. destruct (findKey toLowerCase (country race) _) as [c|] eqn:F3.
    + exists c. split; [reflexivity|]. right; left.
      apply findKey_Some_matches in F3 as [_ [key [Hin _]]].
      apply in_map_iff. now exists (key, c).
    + exists (coords 20 0). auto.
Qed.

Section LatinOne.

Hypothesis toLowerCase_latin1 :
  forall s, isLatin1 s = true -> toLowerCase s = toLowerCaseLatin1 s.

(** A search value equal up to case to a key of a table of non-empty
    Latin-1 keys, distinct up to case, gets the coordinates of that key. *)
Lemma findKey_key_up_to_case (mapping : CoordinateTable)
  (searchValue key : jsstring) (c : Coordinates) :
  forallb isLatin1 (keys mapping) = true ->
  forallb (fun k => negb (isEmpty k)) (keys mapping) = true ->
  NoDup (map toLowerCaseLatin1 (keys mapping)) ->
  In (key, c) mapping ->
  toLowerCase searchValue = toLowerCase key ->
  searchValue <> [] /\ findKey toLowerCase searchValue mapping = Some c.
Proof.
  intros Hl Hn Hd Hin Heq.
  assert (searchValue <> []) as Hne.
  { intros ->. rewrite (toLowerCase_latin1 []) in Heq by reflexivity.
    rewrite forallb_forall in Hl, Hn.
    pose proof (in_map fst _ _ Hin) as Hk. simpl in Hk.
    rewrite (toLowerCase_latin1 key) in Heq by now apply Hl.
    specialize (Hn key Hk). destruct key; discriminate. }
  split; [assumption|].
  apply findKey_exact; [assumption|]. rewrite Heq.
  apply exactMatch_unique; [|assumption].
  now rewrite (toLowerCase_keys toLowerCase toLowerCase_latin1 _ Hl).
Qed.

(** X4.  When the circuit gives nothing, a location equal up to case to a
    key of the circuit table decides: the result is the coordinate of that
    key, whatever the country. *)
Theorem getRaceCoordinates_exact_location_match (race : RaceInfo)
  (key : jsstring) (c : Coordinates) :
  findKey toLowerCase (circuit race) CIRCUIT_COORDINATES = None ->
  In (key, c) CIRCUIT_COORDINATES ->
  toLowerCase (location race) = toLowerCase key ->
  getRaceCoordinates toLowerCase race = VCoords c.
Proof.
  intros Hc Hin Heq. unfold getRaceCoordinates. rewrite Hc.
  destruct (findKey_key_up_to_case CIRCUIT_COORDINATES (location race) key c
              CIRCUIT_COORDINATES_keys_latin1
              CIRCUIT_COORDINATES_keys_nonempty
              CIRCUIT_COORDINATES_lower_keys_distinct Hin Heq) as [_ ->].
  reflexivity.
Qed.

(** X5.  When circuit and location give nothing, a country equal up to
    case to a key of the country table is resolved to the coordinate of that
    key: the case-sensitive read and the case-insensitive lookup that
    follows it agree. *)
Theorem getRaceCoordinates_country_up_to_case (race : RaceInfo)
  (key : jsstring) (c : Coordinates) :
  findKey toLowerCase (circuit race) CIRCUIT_COORDINATES = None ->
  findKey toLowerCase (location race) CIRCUIT_COORDINATES = None ->
  In (key, c) COUNTRY_COORDINATES ->
  toLowerCase (country race) = toLowerCase key ->
  getRaceCoordinates toLowerCase race = VCoords c.
Proof.
  intros Hc Hl Hin Heq.
  rewrite (getRaceCoordinates_fromCountry toLowerCase race Hc Hl).
  unfold fromCountry.
  destruct (findKey_key_up_to_case COUNTRY_COORDINATES (country race) key c
              COUNTRY_COORDINATES_keys_latin1
              COUNTRY_COORDINATES_keys_nonempty
              COUNTRY_COORDINATES_lower_keys_distinct Hin Heq) as [_ Hfind].
  pose proof COUNTRY_COORDINATES_keys_latin1 as Hlat.
  rewrite forallb_forall in Hlat.
  destruct (getProperty_cases toLowerCase COUNTRY_COORDINATES (country race))
    as [[c' [Hown ->]] | [[_ [Hmem _]] | [_ [_ ->]]]]; simpl.
  - unfold ownProperty in Hown.
    apply find_snd_In in Hown as [k [Hk E]]. simpl in E.
    apply eqb_eq in E. subst k.
    destruct (findKey_key_up_to_case COUNTRY_COORDINATES (country race)
                (country race) c'
                COUNTRY_COORDINATES_keys_latin1
                COUNTRY_COORDINATES_keys_nonempty
                COUNTRY_COORDINATES_lower_keys_distinct Hk eq_refl)
      as [_ Hfind'].
    congruence.
  - exfalso. apply existsb_exists in Hmem as [m [Hm E]].
    apply eqb_eq in E. subst m.
    pose proof Object_prototype_members_latin1 as Hml.
    rewrite forallb_forall in Hml.
    rewrite (toLowerCase_latin1 _ (Hml _ Hm)) in Heq.
    rewrite (toLowerCase_latin1 key) in Heq
      by (apply Hlat; apply (in_map fst _ _ Hin)).
    pose proof COUNTRY_COORDINATES_no_inherited_name as Hno.
    rewrite forallb_forall in Hno. specialize (Hno _ Hm).
    apply negb_true_iff in Hno.
    assert (existsb (eqb (toLowerCaseLatin1 (country race)))
              (map toLowerCaseLatin1 (keys COUNTRY_COORDINATES)) = true)
      as Hyes; [|congruence].
    apply existsb_exists. exists (toLowerCaseLatin1 key). split.
    + apply in_map. apply (in_map fst _ _ Hin).
    + now apply eqb_eq.
  - now rewrite Hfind.
Qed.

End LatinOne.

End FindKeyMore.

(** ** [formatDriverName], continued *)

Lemma isWordChar_spec (c : N) :
  isWordChar c = true <->
  (48 <= c <= 57 \/ 65 <= c <= 90 \/ c = 95 \/ 97 <= c <= 122)%N.
Proof.
  unfold isWordChar.
  rewrite !orb_true_iff, !andb_true_iff, !N.leb_le, N.eqb_eq. tauto.
Qed.

Lemma upperUnit_cases (c : N) :
  ((97 <= c <= 122)%N /\ upperUnit c = (c - 32)%N) \/
  (~ (97 <= c <= 122)%N /\ upperUnit c = c).
Proof.
  unfold upperUnit.
  destruct (N.leb_spec 97 c); destruct (N.leb_spec c 122); simpl;
    [left | right | right | right]; split; try reflexivity; lia.
Qed.

Lemma isWordChar_upperUnit (c : N) :
  isWordChar (upperUnit c) = isWordChar c.
Proof.
  apply eq_iff_eq_true. rewrite !isWordChar_spec.
  destruct (upperUnit_cases c) as [[H ->] | [H ->]]; lia.
Qed.

Lemma upperUnit_idempotent (c : N) : upperUnit (upperUnit c) = upperUnit c.
Proof.
  destruct (upperUnit_cases c) as [[H E] | [H E]]; rewrite E.
  - destruct (upperUnit_cases (c - 32)) as [[H' E'] | [H' E']]; [lia|].
    exact E'.
  - exact E.
Qed.

Lemma upperUnit_underscore (c : N) : upperUnit c = 95%N <-> c = 95%N.
Proof. destruct (upperUnit_cases c) as [[H ->] | [H ->]]; lia. Qed.

Definition noUnderscore (s : jsstring) : Prop :=
  Forall (fun c => c <> 95%N) s.

Lemma replaceUnderscores_noUnderscore (s : jsstring) :
  noUnderscore (replaceUnderscores s).
Proof.
  unfold noUnderscore, replaceUnderscores. apply Forall_map.
  apply Forall_forall. intros c _.
  destruct (N.eqb_spec c 95); [discriminate | assumption].
Qed.

Lemma replaceUnderscores_fixed (s : jsstring) :
  noUnderscore s -> replaceUnderscores s = s.
Proof.
  unfold noUnderscore, replaceUnderscores.
  induction 1 as [|c s Hc _ IH]; simpl; [reflexivity|].
  rewrite IH. destruct (N.eqb_spec c 95); [contradiction | reflexivity].
Qed.

Lemma capitalizeMatches_noUnderscore (s : jsstring) :
  forall b, noUnderscore s -> noUnderscore (capitalizeMatches b s).
Proof.
  unfold noUnderscore. induction s as [|c s IH]; intros b H; simpl;
    [constructor|].
  inversion H as [|? ? Hc Hs]; subst. constructor; [|now apply IH].
  destruct (wordBoundary b (isWordChar c) && isWordChar c); [|assumption].
  now rewrite upperUnit_underscore.
Qed.

Lemma capitalizeMatches_idempotent (s : jsstring) :
  forall b, capitalizeMatches b (capitalizeMatches b s)
            = capitalizeMatches b s.
Proof.
  induction s as [|c s IH]; intros b; simpl; [reflexivity|].
  destruct (wordBoundary b (isWordChar c) && isWordChar c) eqn:E.
  - rewrite isWordChar_upperUnit, E, upperUnit_idempotent. now rewrite IH.
  - rewrite E. now rewrite IH.
Qed.

(** X6.  Formatting a name that is already formatted changes nothing. *)
Theorem formatDriverName_idempotent (name : jsstring) :
  formatDriverName (formatDriverName name) = formatDriverName name.
Proof.
  unfold formatDriverName.
  rewrite (replaceUnderscores_fixed
             (capitalizeMatches false (replaceUnderscores name))).
  - apply capitalizeMatches_idempotent.
  - apply capitalizeMatches_noUnderscore, replaceUnderscores_noUnderscore.
Qed.

(** X7.  A formatted name contains no underscore. *)
Theorem formatDriverName_noUnderscore (name : jsstring) :
  noUnderscore (formatDriverName name).
Proof.
  apply capitalizeMatches_noUnderscore, replaceUnderscores_noUnderscore.
Qed.

(** ** [getDriverPortrait] and [getTeamLogo] *)

Lemma portraitMap_keys_distinct : NoDup (map fst portraitMap).
Proof. apply distinct_NoDup. vm_compute. reflexivity. Qed.

Lemma teamMap_keys_distinct : NoDup (map fst teamMap).
Proof. apply distinct_NoDup. vm_compute. reflexivity. Qed.

Lemma portraitMap_values_nonempty :
  forallb (fun e => negb (isEmpty (snd e))) portraitMap = true.
Proof. vm_compute. reflexivity. Qed.

Lemma teamMap_values_nonempty :
  forallb (fun e => negb (isEmpty (snd e))) teamMap = true.
Proof. vm_compute. reflexivity. Qed.

Lemma find_key_NoDup (table : StringTable) (key v : jsstring) :
  NoDup (map fst table) ->
  In (key, v) table ->
  find (fun entry => eqb (fst entry) key) table = Some (key, v).
Proof.
  induction table as [|[k0 v0] rest IH]; simpl; intros Hnd Hin;
    [contradiction|].
  inversion Hnd as [|? ? Hnotin Hnd']; subst.
  destruct (eqb k0 key) eqn:E.
  - apply eqb_eq in E. subst k0. destruct Hin as [Heq | Hin];
      [now inversion Heq|].
    exfalso. apply Hnotin. apply (in_map fst _ _ Hin).
  - destruct Hin as [Heq | Hin]; [|now apply IH].
    inversion Heq; subst. rewrite eqb_refl in E. discriminate.
Qed.

(** In a table of distinct keys and non-empty values, the read gives a
    string exactly for the entries of the table. *)
Lemma getTruthy_SString (table : StringTable) (key v : jsstring) :
  NoDup (map fst table) ->
  forallb (fun e => negb (isEmpty (snd e))) table = true ->
  getTruthy table key = Some (SString v) <-> In (key, v) table.
Proof.
  intros Hnd Hne. unfold getTruthy. split.
  - destruct (find _ table) as [[k v']|] eqn:F.
    + apply find_some in F as [Hin E]. simpl in E. apply eqb_eq in E.
      subst k. destruct (isEmpty v'); [discriminate|].
      intros H. now injection H as ->.
    + destruct (existsb _ _); discriminate.
  - intros Hin. rewrite (find_key_NoDup table key v Hnd Hin).
    rewrite forallb_forall in Hne. specialize (Hne _ Hin). simpl in Hne.
    apply negb_true_iff in Hne. now rewrite Hne.
Qed.

Lemma getTruthy_None (table : StringTable) (key : jsstring) :
  forallb (fun e => negb (isEmpty (snd e))) table = true ->
  getTruthy table key = None <->
  ~ In key (map fst table) /\
  existsb (eqb key) Object_prototype_members = false.
Proof.
  intros Hne. unfold getTruthy. rewrite forallb_forall in Hne. split.
  - destruct (find _ table) as [[k v']|] eqn:F.
    + apply find_some in F as [Hin E]. specialize (Hne _ Hin).
      simpl in Hne. apply negb_true_iff in Hne. rewrite Hne. discriminate.
    + destruct (existsb _ _); [discriminate|]. intros _. split; auto.
      intros Hin. apply in_map_iff in Hin as [[k v] [E Hin]]. simpl in E.
      subst k. apply (find_none _ _ F) in Hin. simpl in Hin.
      rewrite eqb_refl in Hin. discriminate.
  - intros [Hnot Hmem]. destruct (find _ table) as [[k v']|] eqn:F.
    + apply find_some in F as [Hin E]. simpl in E. apply eqb_eq in E.
      subst k. exfalso. apply Hnot. apply (in_map fst _ _ Hin).
    + now rewrite Hmem.
Qed.

Section ImagesFacts.

Variable toLowerCase : jsstring -> jsstring.

(** X8.  [getDriverPortrait] returns a file name exactly when the
    lower-cased identifier is a key of the portrait map, and then the file
    of that key; it returns [null] exactly when the lower-cased identifier
    is neither a key nor the name of a member inherited from
    [Object.prototype]. *)
Theorem getDriverPortrait_lookup (driverRef : jsstring) :
  (forall file,
     getDriverPortrait toLowerCase driverRef = Some (SString file) <->
     In (toLowerCase driverRef, file) portraitMap) /\
  (getDriverPortrait toLowerCase driverRef = None <->
   ~ In (toLowerCase driverRef) (map fst portraitMap) /\
   existsb (eqb (toLowerCase driverRef)) Object_prototype_members = false).
Proof.
  unfold getDriverPortrait. cbv zeta. split.
  - intros file. apply getTruthy_SString;
      [apply portraitMap_keys_distinct | apply portraitMap_values_nonempty].
  - apply getTruthy_None, portraitMap_values_nonempty.
Qed.

End ImagesFacts.

(** Whitespace only. *)
Definition allWhiteSpace (s : jsstring) : bool := forallb isWhiteSpace s.

Lemma trimStart_allWhiteSpace (s : jsstring) :
  allWhiteSpace s = true -> trimStart s = [].
Proof.
  induction s as [|c s IH]; simpl; [reflexivity|]. intros H.
  apply andb_true_iff in H as [-> H]. now apply IH.
Qed.

Lemma trimStart_app (s w : jsstring) :
  trimStart (s ++ w)
  = if allWhiteSpace s then trimStart w else trimStart s ++ w.
Proof.
  induction s as [|c s IH]; simpl; [reflexivity|].
  destruct (isWhiteSpace c); simpl; [exact IH | reflexivity].
Qed.

Lemma allWhiteSpace_rev (s : jsstring) :
  allWhiteSpace (rev s) = allWhiteSpace s.
Proof.
  unfold allWhiteSpace. apply eq_iff_eq_true.
  rewrite !forallb_forall. split; intros H c Hc; apply H;
    [now apply -> in_rev | now apply <- in_rev].
Qed.

Lemma trimEnd_app_white (s w : jsstring) :
  allWhiteSpace w = true -> trimEnd (s ++ w) = trimEnd s.
Proof.
  intros H. unfold trimEnd. rewrite rev_app_distr, trimStart_app.
  now rewrite allWhiteSpace_rev, H.
Qed.

(** Whitespace around a string does not change what [trim] returns. *)
Lemma trim_padding (ws1 s ws2 : jsstring) :
  allWhiteSpace ws1 = true -> allWhiteSpace ws2 = true ->
  trim (ws1 ++ s ++ ws2) = trim s.
Proof.
  intros H1 H2. unfold trim. rewrite trimStart_app, H1, trimStart_app.
  destruct (allWhiteSpace s) eqn:E.
  - rewrite (trimStart_allWhiteSpace ws2 H2).
    now rewrite (trimStart_allWhiteSpace s E).
  - now apply trimEnd_app_white.
Qed.

Lemma lowerUnit_whiteSpace (c : N) : isWhiteSpace c = true -> lowerUnit c = c.
Proof.
  unfold isWhiteSpace, lowerUnit.
  rewrite !orb_true_iff, !andb_true_iff, !N.leb_le, !N.eqb_eq. intros H.
  destruct (N.leb_spec 65 c); destruct (N.leb_spec c 90);
    destruct (N.leb_spec 192 c); destruct (N.leb_spec c 222); simpl;
    try reflexivity; lia.
Qed.

Lemma toLowerCaseLatin1_whiteSpace (ws : jsstring) :
  allWhiteSpace ws = true -> toLowerCaseLatin1 ws = ws.
Proof.
  unfold allWhiteSpace, toLowerCaseLatin1.
  induction ws as [|c ws IH]; simpl; [reflexivity|]. intros H.
  apply andb_true_iff in H as [Hc Hw].
  now rewrite (lowerUnit_whiteSpace c Hc), IH.
Qed.

Lemma isLatin1_app (s t : jsstring) :
  isLatin1 (s ++ t) = isLatin1 s && isLatin1 t.
Proof. apply forallb_app. Qed.

Section TeamLogoFacts.

Variable toLowerCase : jsstring -> jsstring.

Hypothesis toLowerCase_latin1 :
  forall s, isLatin1 s = true -> toLowerCase s = toLowerCaseLatin1 s.


End TeamLogoFacts.

(** ** The sections of [ComparePage] *)

(** The entry of [scatterData] that belongs to a row of the table. *)
Definition pointOfRow (row : ComparisonRow.t) : ScatterPoint.t :=
  ScatterPoint.mk (ComparisonRow.driver row) (ComparisonRow.predicted row)
    (ComparisonRow.actual row) (ComparisonRow.absError row).

(** The rows of the table before they are sorted. *)
Definition matchedRows (actuals : list (option ActualResult.t))
  (preds : list (option DriverPrediction.t)) : list ComparisonRow.t :=
  filterNonNull (map (comparisonRow actuals) preds).

Lemma filterNonNull_length_le (X : Type) (l : list (option X)) :
  (length (filterNonNull l) <= length l)%nat.
Proof.
  induction l as [|[x|] l IH]; simpl; lia.
Qed.

Lemma scatterData_matchedRows (data : ComparisonData)
  (actuals : list (option ActualResult.t)) :
  actual_results data = Some actuals ->
  scatterData data = map pointOfRow (matchedRows actuals (predictions data)).
Proof.
  intros Hact. unfold scatterData, matchedRows. rewrite Hact.
  induction (predictions data) as [|[pred|] preds IH]; simpl;
    [reflexivity | | exact IH].
  destruct (findActual actuals pred) as [actual|]; simpl; [|exact IH].
  now rewrite IH.
Qed.

(** X10.  The scatter plot and the table show the same matched drivers:
    the table is a rearrangement of the entries of the plot, with the
    absolute error as the error of the entry; they have the same number of
    entries, at most one per prediction. *)
Theorem scatterData_comparisonTable (data : ComparisonData) :
  Permutation (scatterData data) (map pointOfRow (comparisonTable data)) /\
  length (scatterData data) = length (comparisonTable data) /\
  (length (comparisonTable data) <= length (predictions data))%nat.
Proof.
  assert (Permutation (scatterData data)
            (map pointOfRow (comparisonTable data))) as HP.
  { destruct (actual_results data) as [actuals|] eqn:Hact.
    - rewrite (scatterData_matchedRows data actuals Hact).
      unfold comparisonTable. rewrite Hact.
      apply Permutation_map. apply sort_Permutation.
    - unfold scatterData, comparisonTable. rewrite Hact. constructor. }
  split; [exact HP|]. split.
  - rewrite (Permutation_length HP). apply length_map.
  - unfold comparisonTable. destruct (actual_results data); [|simpl; lia].
    rewrite sort_length.
    etransitivity; [apply filterNonNull_length_le|].
    now rewrite length_map.
Qed.



Lemma matchedRows_nil (actuals : list (option ActualResult.t))
  (preds : list (option DriverPrediction.t)) :
  (forall p, In p preds -> comparisonRow actuals p = None) ->
  matchedRows actuals preds = [].
Proof.
  unfold matchedRows. induction preds as [|p preds IH]; intros Hall;
    [reflexivity|].
  simpl. rewrite (Hall p (or_introl eq_refl)). apply IH.
  intros q Hq. apply Hall. now right.
Qed.

(** X12.  When results are present but no prediction has a matching
    result, for instance when the list of results is empty, the page shows
    none of its data sections although there are predictions: no plot, no
    table, no "Predictions Only" and no "No prediction data". *)
Theorem no_match_shows_no_section (data : ComparisonData)
  (actuals : list (option ActualResult.t)) :
  actual_results data = Some actuals ->
  predictions data <> [] ->
  (forall pred a,
     In (Some pred) (predictions data) -> In (Some a) actuals ->
     ActualResult.driverRef a <> DriverPrediction.driverRef pred) ->
  showScatterPlot data = false /\
  showComparisonTable data = false /\
  showPredictionsOnly data = false /\
  showNoPredictions data = false.
Proof.
  intros Hact Hne Hno.
  assert (matchedRows actuals (predictions data) = []) as Hrows.
  { unfold matchedRows.
    assert (forall p, In p (predictions data) ->
                      comparisonRow actuals p = None) as Hall.
    { intros [pred|] Hp; [|reflexivity]. unfold comparisonRow.
      rewrite (proj2 (findActual_None actuals pred)); [reflexivity|].
      intros a Ha. now apply Hno. }
    now apply matchedRows_nil. }
  unfold showScatterPlot, showComparisonTable, showPredictionsOnly,
    showNoPredictions.
  rewrite (scatterData_matchedRows data actuals Hact), Hrows.
  unfold comparisonTable. rewrite Hact.
  fold (matchedRows actuals (predictions data)). rewrite Hrows. simpl.
  destruct (predictions data); [contradiction|].
  simpl. auto using andb_false_r.
Qed.

(** ** Colours of the errors *)

(** Closes a goal that holds by evaluation or by arithmetic, or whose
    hypotheses equate two different string constants or contradict the
    arithmetic. *)
Ltac settle :=
  first [ reflexivity | lia
        | exfalso; lia
        | exfalso;
          match goal with
          | H : @eq jsstring _ _ |- _ => vm_compute in H; discriminate H
          end ].

(** X13.  The colour of an error in the table depends on its size only:
    green for 0, yellow for 1, orange for 2 and 3, red from 4 on, the same
    for an error and its opposite. *)
Theorem getErrorColor_classes (error : Z) :
  (getErrorColor error = str "text-green-600 dark:text-green-400"
   <-> error = 0%Z) /\
  (getErrorColor error = str "text-yellow-600 dark:text-yellow-400"
   <-> Z.abs error = 1%Z) /\
  (getErrorColor error = str "text-orange-600 dark:text-orange-400"
   <-> (2 <= Z.abs error <= 3)%Z) /\
  (getErrorColor error = str "text-red-600 dark:text-red-400"
   <-> (4 <= Z.abs error)%Z) /\
  getErrorColor (- error) = getErrorColor error.
Proof.
  unfold getErrorColor. rewrite Z.abs_opp.
  destruct (Z.eqb_spec error 0) as [E0 | E0];
    destruct (Z.eqb_spec (- error) 0) as [E0' | E0']; try lia;
    destruct (Z.leb_spec (Z.abs error) 1);
    destruct (Z.leb_spec (Z.abs error) 3);
    repeat split; intros; settle.
Qed.

(** X14.  The plot and the table agree on the colours they share: the cell
    of an entry is green exactly when the row of the same error is green,
    amber exactly when the row is yellow, and red for the orange and red
    rows. *)
Theorem cellFill_getErrorColor (entry : ScatterPoint.t) (error : Z) :
  ScatterPoint.error entry = Z.abs error ->
  (cellFill entry = str "#16A34A" <->
   getErrorColor error = str "text-green-600 dark:text-green-400") /\
  (cellFill entry = str "#F59E0B" <->
   getErrorColor error = str "text-yellow-600 dark:text-yellow-400") /\
  (cellFill entry = str "#DC2626" <->
   getErrorColor error = str "text-orange-600 dark:text-orange-400" \/
   getErrorColor error = str "text-red-600 dark:text-red-400").
Proof.
  intros Herr.
  destruct (getErrorColor_classes error) as [Hg [Hy [Ho [Hr _]]]].
  rewrite Hg, Hy, Ho, Hr. unfold cellFill. rewrite Herr.
  destruct (Z.eqb_spec (Z.abs error) 0);
    destruct (Z.leb_spec (Z.abs error) 1);
    repeat split; intros; settle.
Qed.

Lemma cellFill_getErrorColor_witness :
  ScatterPoint.error (pointOfRow scenarioRowA) = Z.abs (-1) /\
  (cellFill (pointOfRow scenarioRowA) = str "#F59E0B" <->
   getErrorColor (-1) = str "text-yellow-600 dark:text-yellow-400").
Proof.
  split; [reflexivity|].
  apply (cellFill_getErrorColor (pointOfRow scenarioRowA) (-1)).
  reflexivity.
Defined.

(** ** The driver cell of the table *)

Definition underscores (s : jsstring) : nat := count_occ N.eq_dec s 95%N.

Lemma underscores_zero (s : jsstring) :
  underscores s = 0%nat -> noUnderscore s.
Proof.
  unfold underscores, noUnderscore. intros H. apply Forall_forall.
  intros c Hc ->. apply (count_occ_not_In N.eq_dec) in H. contradiction.
Qed.

Lemma replaceFirstUnderscore_all (s : jsstring) :
  (underscores s <= 1)%nat ->
  replaceFirstUnderscore s = replaceUnderscores s.
Proof.
  unfold underscores. induction s as [|c s IH]; simpl; [reflexivity|].
  destruct (N.eq_dec c 95) as [-> | Hc]; simpl.
  - intros H. f_equal. symmetry. apply replaceUnderscores_fixed.
    apply underscores_zero. unfold underscores. lia.
  - intros H. destruct (N.eqb_spec c 95); [contradiction|].
    f_equal. now apply IH.
Qed.

Lemma replaceFirstUnderscore_leaves_one (s : jsstring) :
  (2 <= underscores s)%nat -> In 95%N (replaceFirstUnderscore s).
Proof.
  unfold underscores. induction s as [|c s IH]; simpl; [lia|].
  destruct (N.eq_dec c 95) as [-> | Hc]; simpl.
  - intros H. right. apply (count_occ_In N.eq_dec). lia.
  - intros H. destruct (N.eqb_spec c 95); [contradiction|].
    right. now apply IH.
Qed.

Lemma capitalizeMatches_keeps_underscore (s : jsstring) :
  forall b, In 95%N s -> In 95%N (capitalizeMatches b s).
Proof.
  induction s as [|c s IH]; intros b; simpl; [tauto|].
  intros [-> | H]; [left | right; now apply IH].
  now destruct (wordBoundary b (isWordChar 95) && isWordChar 95).
Qed.

(** X15.  The driver cell of the table shows the same name as
    [formatDriverName] exactly for the identifiers with at most one
    underscore; with two or more, the cell keeps an underscore. *)
Theorem rowDriverLabel_formatDriverName (driver : jsstring) :
  (rowDriverLabel driver = formatDriverName driver <->
   (underscores driver <= 1)%nat) /\
  ((2 <= underscores driver)%nat -> In 95%N (rowDriverLabel driver)).
Proof.
  assert ((2 <= underscores driver)%nat -> In 95%N (rowDriverLabel driver))
    as Hkeep.
  { intros H. apply capitalizeMatches_keeps_underscore.
    now apply replaceFirstUnderscore_leaves_one. }
  split; [|exact Hkeep]. split.
  - intros Heq.
    destruct (Nat.le_gt_cases (underscores driver) 1) as [H | H];
      [assumption|].
    exfalso. apply Hkeep in H. rewrite Heq in H.
    pose proof (formatDriverName_noUnderscore driver) as Hno.
    unfold noUnderscore in Hno. rewrite Forall_forall in Hno.
    now apply (Hno _ H).
  - intros H. unfold rowDriverLabel, formatDriverName.
    now rewrite replaceFirstUnderscore_all.
Qed.

Lemma rowDriverLabel_formatDriverName_witness :
  (2 <= underscores (str "nyck_de_vries"))%nat /\
  In 95%N (rowDriverLabel (str "nyck_de_vries")).
Proof.
  split; [vm_compute; lia|].
  apply (rowDriverLabel_formatDriverName (str "nyck_de_vries")).
  vm_compute; lia.
Defined.

(** ** The custom scenario of [Home] *)

(** The grid positions of a lineup, and the positions 1, 2, ..., n. *)
Definition gridPositions (customDrivers : list CustomDriver.t) : list Z :=
  map CustomDriver.grid_position customDrivers.

Definition gridOrder (n : nat) : list Z := map Z.of_nat (seq 1 n).

Definition uniqueError : jsstring :=
  str "Grid positions must be unique for each driver".

Lemma nodup_length_le (xs : list Z) :
  (length (nodup Z.eq_dec xs) <= length xs)%nat.
Proof.
  induction xs as [|x xs IH]; simpl; [lia|].
  destruct (in_dec Z.eq_dec x xs); simpl; lia.
Qed.

(** [new Set(xs).size === xs.length] says that [xs] has no duplicate. *)
Lemma setSize_NoDup (xs : list Z) :
  setSize xs = length xs <-> NoDup xs.
Proof.
  unfold setSize. split.
  - induction xs as [|x xs IH]; simpl; [constructor|].
    destruct (in_dec Z.eq_dec x xs) as [Hin | Hnot]; simpl; intros H.
    + pose proof (nodup_length_le xs). lia.
    + constructor; [assumption | apply IH; lia].
  - intros H. now rewrite (nodup_fixed_point Z.eq_dec H).
Qed.

Lemma gridOrder_NoDup (n : nat) : NoDup (gridOrder n).
Proof.
  unfold gridOrder. apply Finite.Injective_map_NoDup; [|apply seq_NoDup].
  intros x y H. now apply Nat2Z.inj.
Qed.

Lemma gridOrder_range (n : nat) (p : Z) :
  In p (gridOrder n) <-> (1 <= p <= Z.of_nat n)%Z.
Proof.
  unfold gridOrder. rewrite in_map_iff. split.
  - intros [i [<- Hi]]. apply in_seq in Hi. lia.
  - intros H. exists (Z.to_nat p). split; [lia|]. apply in_seq. lia.
Qed.

(** X16.  Whatever is typed in the grid position field, the position that
    is stored lies between 1 and 20: [NaN], 0 and the numbers below 1 are
    stored as 1, the numbers above 20 as 20, and a number between 1 and 20
    as it is. *)
Theorem clampGridPosition_range (parsed : option Z) :
  (1 <= clampGridPosition parsed <= 20)%Z /\
  (parsed = None -> clampGridPosition parsed = 1%Z) /\
  (forall n, parsed = Some n ->
     ((n <= 0)%Z -> clampGridPosition parsed = 1%Z) /\
     ((1 <= n <= 20)%Z -> clampGridPosition parsed = n) /\
     ((20 < n)%Z -> clampGridPosition parsed = 20%Z)).
Proof.
  unfold clampGridPosition. split; [lia|]. split.
  - intros ->. reflexivity.
  - intros n ->. destruct (Z.eqb_spec n 0); repeat split; lia.
Qed.

Section HomeFacts.

Variable toUpperCase : jsstring -> jsstring.

Lemma mapFrom_length (X Y : Type) (f : nat -> X -> Y) (xs : list X) :
  forall i, length (mapFrom f i xs) = length xs.
Proof.
  induction xs as [|x xs IH]; intros i; simpl; [reflexivity|].
  now rewrite IH.
Qed.

Lemma initialDrivers_positions_from (ds : list Driver.t) :
  forall i,
    gridPositions
      (mapFrom (fun index d => customDriverOf toUpperCase d
                                 (Z.of_nat index + 1)) i ds)
    = map Z.of_nat (seq (S i) (length ds)).
Proof.
  unfold gridPositions.
  induction ds as [|d ds IH]; intros i; simpl; [reflexivity|].
  rewrite IH. f_equal. lia.
Qed.

(** X17.  The lineup made from the drivers of the service has at most 20
    entries, in the order of the service, on the grid positions 1, 2, ...;
    so, when it is not empty, [handlePredict] sends it in custom mode. *)
Theorem initialDrivers_valid (drivers : option (list Driver.t)) :
  (length (initialDrivers toUpperCase drivers) <= 20)%nat /\
  map CustomDriver.driverRef (initialDrivers toUpperCase drivers)
    = map Driver.driverRef
        (firstn 20 (match drivers with Some ds => ds | None => [] end)) /\
  gridPositions (initialDrivers toUpperCase drivers)
    = gridOrder (length (initialDrivers toUpperCase drivers)) /\
  (initialDrivers toUpperCase drivers <> [] ->
   forall selectedRaceId availableRaces scenarioRaceId,
   exists body,
     handlePredict ModeCustom selectedRaceId
       (initialDrivers toUpperCase drivers) availableRaces scenarioRaceId
     = PostCustom body).
Proof.
  assert (gridPositions (initialDrivers toUpperCase drivers)
          = gridOrder (length (initialDrivers toUpperCase drivers))) as Hpos.
  { unfold initialDrivers, mapi, gridOrder.
    now rewrite initialDrivers_positions_from, mapFrom_length. }
  split; [|split; [|split]].
  - unfold initialDrivers, mapi, slice0. rewrite mapFrom_length.
    apply firstn_le_length.
  - unfold initialDrivers, mapi, slice0.
    generalize (firstn 20 (match drivers with Some ds => ds | None => [] end)).
    generalize 0%nat. intros i l. revert i.
    induction l as [|d l IH]; intros i; simpl; [reflexivity|].
    now rewrite IH.
  - exact Hpos.
  - intros Hne selectedRaceId availableRaces scenarioRaceId.
    unfold handlePredict.
    destruct (initialDrivers toUpperCase drivers) as [|d l] eqn:E;
      [contradiction|].
    cbv zeta. change (map CustomDriver.grid_position (d :: l))
      with (gridPositions (d :: l)).
    rewrite (proj2 (setSize_NoDup (gridPositions (d :: l))))
      by (rewrite Hpos; apply gridOrder_NoDup).
    rewrite Nat.eqb_refl. simpl. eauto.
Qed.

Lemma addDriver_cases (drivers : list Driver.t)
  (customDrivers : list CustomDriver.t) :
  (exists d,
     In d drivers /\
     ~ In (Driver.driverRef d)
         (map CustomDriver.driverRef customDrivers) /\
     addDriver toUpperCase drivers customDrivers
     = customDrivers ++
         [customDriverOf toUpperCase d
            (Z.of_nat (length customDrivers) + 1)]) \/
  ((forall d, In d drivers ->
      In (Driver.driverRef d) (map CustomDriver.driverRef customDrivers)) /\
   addDriver toUpperCase drivers customDrivers = customDrivers).
Proof.
  unfold addDriver. cbv zeta.
  destruct (find _ drivers) as [d|] eqn:F.
  - left. apply find_some in F as [Hin Hp]. exists d.
    split; [assumption|]. split; [|reflexivity].
    apply negb_true_iff in Hp. intros Hin'.
    assert (existsb (eqb (Driver.driverRef d))
              (map CustomDriver.driverRef customDrivers) = true) as E;
      [|congruence].
    apply existsb_exists. exists (Driver.driverRef d).
    split; [assumption | apply eqb_refl].
  - right. split; [|reflexivity]. intros d Hin.
    apply (find_none _ _ F) in Hin. apply negb_false_iff in Hin.
    apply existsb_exists in Hin as [r [Hr E]]. apply eqb_eq in E.
    now subst r.
Qed.

Lemma gridOrder_S (n : nat) :
  gridOrder (S n) = gridOrder n ++ [(Z.of_nat n + 1)%Z].
Proof.
  unfold gridOrder. rewrite seq_S, map_app. simpl. f_equal. f_equal. lia.
Qed.

Lemma find_first (X : Type) (p : X -> bool) (before after : list X)
  (x : X) :
  (forall y, In y before -> p y = false) -> p x = true ->
  find p (before ++ x :: after) = Some x.
Proof.
  intros Hb Hx. induction before as [|y before IH]; simpl.
  - now rewrite Hx.
  - rewrite (Hb y (or_introl eq_refl)). apply IH.
    intros z Hz. apply Hb. now right.
Qed.

(** X18.  When a driver of the service is not in the lineup, "Add Driver"
    appends the first such driver, on the grid position after the number of
    entries, and the lineup has one entry more; it never repeats a driver of
    the lineup, does nothing when every driver of the service is in the
    lineup, and continues the grid positions 1, 2, ... of a lineup that has
    them. *)
Theorem addDriver_keeps_lineup_valid (drivers : list Driver.t)
  (customDrivers : list CustomDriver.t) :
  (forall before d after,
     drivers = before ++ d :: after ->
     (forall x, In x before ->
        In (Driver.driverRef x)
          (map CustomDriver.driverRef customDrivers)) ->
     ~ In (Driver.driverRef d) (map CustomDriver.driverRef customDrivers) ->
     addDriver toUpperCase drivers customDrivers
     = customDrivers ++
         [customDriverOf toUpperCase d
            (Z.of_nat (length customDrivers) + 1)] /\
     length (addDriver toUpperCase drivers customDrivers)
     = S (length customDrivers) /\
     CustomDriver.driverRef
       (customDriverOf toUpperCase d (Z.of_nat (length customDrivers) + 1))
     = Driver.driverRef d /\
     CustomDriver.grid_position
       (customDriverOf toUpperCase d (Z.of_nat (length customDrivers) + 1))
     = (Z.of_nat (length customDrivers) + 1)%Z) /\
  (NoDup (map CustomDriver.driverRef customDrivers) ->
   NoDup (map CustomDriver.driverRef
            (addDriver toUpperCase drivers customDrivers))) /\
  ((forall d, In d drivers ->
      In (Driver.driverRef d) (map CustomDriver.driverRef customDrivers)) ->
   addDriver toUpperCase drivers customDrivers = customDrivers) /\
  (gridPositions customDrivers = gridOrder (length customDrivers) ->
   gridPositions (addDriver toUpperCase drivers customDrivers)
   = gridOrder (length (addDriver toUpperCase drivers customDrivers))).
Proof.
  split.
  { intros before d after Hdrivers Hbefore Hnew.
    assert (addDriver toUpperCase drivers customDrivers
            = customDrivers ++
                [customDriverOf toUpperCase d
                   (Z.of_nat (length customDrivers) + 1)]) as E.
    { unfold addDriver. cbv zeta. rewrite Hdrivers.
      rewrite (find_first _ _ before after d); [reflexivity | |].
      - intros y Hy. apply negb_false_iff. apply existsb_exists.
        exists (Driver.driverRef y). split; [now apply Hbefore|].
        apply eqb_refl.
      - apply negb_true_iff. apply not_true_iff_false. intros H.
        apply existsb_exists in H as [r [Hr Heq]]. apply eqb_eq in Heq.
        subst r. contradiction. }
    split; [exact E|]. split; [|split; reflexivity].
    rewrite E, length_app. simpl. lia. }
  destruct (addDriver_cases drivers customDrivers)
    as [[d [Hin [Hnew ->]]] | [Hall ->]].
  - split; [|split].
    + intros Hnd. rewrite map_app. simpl.
      apply (Permutation_NoDup
               (Permutation_cons_append
                  (map CustomDriver.driverRef customDrivers)
                  (Driver.driverRef d))).
      now constructor.
    + intros Hall. now destruct (Hnew (Hall d Hin)).
    + intros Hpos. unfold gridPositions in *.
      rewrite map_app, Hpos, length_app. simpl.
      replace (length customDrivers + 1)%nat with (S (length customDrivers))
        by lia.
      now rewrite gridOrder_S.
  - auto.
Qed.

End HomeFacts.

(** X19.  [handlePredict] sends a custom scenario exactly in custom mode
    for a lineup that is not empty and whose grid positions are pairwise
    different; the request carries the drivers of the lineup in their order,
    on their grid positions. *)
Theorem handlePredict_custom_iff (searchMode : SearchMode)
  (selectedRaceId : option Z) (customDrivers : list CustomDriver.t)
  (availableRaces : list RaceInfo) (scenarioRaceId : option Z) :
  ((exists body,
      handlePredict searchMode selectedRaceId customDrivers availableRaces
        scenarioRaceId = PostCustom body) <->
   searchMode = ModeCustom /\ customDrivers <> [] /\
   NoDup (gridPositions customDrivers)) /\
  (forall body,
     handlePredict searchMode selectedRaceId customDrivers availableRaces
       scenarioRaceId = PostCustom body ->
     map CustomDriver.driverRef (CustomRequest.drivers body)
       = map CustomDriver.driverRef customDrivers /\
     gridPositions (CustomRequest.drivers body)
       = gridPositions customDrivers).
Proof.
  unfold handlePredict.
  destruct searchMode.
  { split.
    - split.
      + intros [body H]. destruct selectedRaceId as [id|]; [|discriminate].
        destruct (id =? 0)%Z; discriminate.
      + intros [H _]. discriminate.
    - intros body H. destruct selectedRaceId as [id|]; [|discriminate].
      destruct (id =? 0)%Z; discriminate. }
  cbv zeta.
  change (map CustomDriver.grid_position customDrivers)
    with (gridPositions customDrivers).
  destruct customDrivers as [|d l] eqn:E.
  { split.
    - split; [intros [body H]; discriminate | intros [_ [H _]]; congruence].
    - intros body H. discriminate. }
  rewrite <- E. replace (length customDrivers =? 0)%nat with false
    by (rewrite E; reflexivity).
  destruct (Nat.eqb_spec (setSize (gridPositions customDrivers))
              (length (gridPositions customDrivers))) as [Hs | Hs]; simpl.
  - apply setSize_NoDup in Hs. split.
    + split; [|eauto]. intros _. rewrite E at 2. repeat split; congruence.
    + intros body H. injection H as <-. simpl. unfold gridPositions.
      rewrite !map_map. simpl. auto.
  - split.
    + split; [intros [body H]; discriminate|].
      intros [_ [_ Hnd]]. now apply setSize_NoDup in Hnd.
    + intros body H. discriminate.
Qed.

Lemma handlePredict_custom_iff_witness :
  handlePredict ModeCustom None
    [CustomDriver.mk (str "max_verstappen") (SString (str "VER"))
       (str "Red Bull Racing") 1 None]
    [] None
  = PostCustom
      (CustomRequest.mk None None None
         [CustomDriver.mk (str "max_verstappen") (SString (str "VER"))
            (str "Red Bull Racing") 1 None]) /\
  gridPositions
    (CustomRequest.drivers
       (CustomRequest.mk None None None
          [CustomDriver.mk (str "max_verstappen") (SString (str "VER"))
             (str "Red Bull Racing") 1 None]))
  = gridPositions
      [CustomDriver.mk (str "max_verstappen") (SString (str "VER"))
         (str "Red Bull Racing") 1 None].
Proof.
  split; [reflexivity|].
  apply (handlePredict_custom_iff ModeCustom None
           [CustomDriver.mk (str "max_verstappen") (SString (str "VER"))
              (str "Red Bull Racing") 1 None] [] None).
  reflexivity.
Defined.

(** X20.  While the button is enabled, [handlePredict] fetches the
    prediction of the selected race, sends the custom scenario, or reports
    grid positions that are not unique; it reports neither a missing mode
    nor an empty lineup. *)
Theorem predictDisabled_guards_handlePredict (loading : bool)
  (searchMode : SearchMode) (selectedRaceId : option Z)
  (customDrivers : list CustomDriver.t) (availableRaces : list RaceInfo)
  (scenarioRaceId : option Z) :
  predictDisabled loading searchMode selectedRaceId customDrivers = false ->
  (exists id,
     selectedRaceId = Some id /\ searchMode = ModeSelect /\
     handlePredict searchMode selectedRaceId customDrivers availableRaces
       scenarioRaceId = FetchPrediction id) \/
  (exists body,
     handlePredict searchMode selectedRaceId customDrivers availableRaces
       scenarioRaceId = PostCustom body) \/
  (~ NoDup (gridPositions customDrivers) /\
   handlePredict searchMode selectedRaceId customDrivers availableRaces
     scenarioRaceId = SetError uniqueError).
Proof.
  unfold predictDisabled, handlePredict. intros H.
  apply orb_false_iff in H as [_ H].
  destruct searchMode.
  - destruct selectedRaceId as [id|]; [|discriminate]. rewrite H.
    left. now exists id.
  - right. rewrite H. cbv zeta.
    change (map CustomDriver.grid_position customDrivers)
      with (gridPositions customDrivers).
    destruct (Nat.eqb_spec (setSize (gridPositions customDrivers))
                (length (gridPositions customDrivers))) as [Hs | Hs]; simpl.
    + left. eauto.
    + right. split; [|reflexivity]. intros Hnd.
      now apply setSize_NoDup in Hnd.
Qed.

Lemma predictDisabled_guards_handlePredict_witness :
  predictDisabled false ModeSelect (Some 7%Z) [] = false /\
  ((exists id,
      Some 7%Z = Some id /\ ModeSelect = ModeSelect /\
      handlePredict ModeSelect (Some 7%Z) [] [] None = FetchPrediction id) \/
   (exists body,
      handlePredict ModeSelect (Some 7%Z) [] [] None = PostCustom body) \/
   (~ NoDup (gridPositions []) /\
    handlePredict ModeSelect (Some 7%Z) [] [] None = SetError uniqueError)).
Proof.
  split; [reflexivity|].
  apply (predictDisabled_guards_handlePredict false ModeSelect (Some 7%Z)
           [] [] None).
  reflexivity.
Defined.

(** ** Removing and adding drivers *)

Lemma handlePredict_repeated_position (selectedRaceId : option Z)
  (customDrivers : list CustomDriver.t) (availableRaces : list RaceInfo)
  (scenarioRaceId : option Z) :
  customDrivers <> [] ->
  ~ NoDup (gridPositions customDrivers) ->
  handlePredict ModeCustom selectedRaceId customDrivers availableRaces
    scenarioRaceId = SetError uniqueError.
Proof.
  intros Hne Hdup. unfold handlePredict. cbv zeta.
  change (map CustomDriver.grid_position customDrivers)
    with (gridPositions customDrivers).
  replace (length customDrivers =? 0)%nat with false
    by (destruct customDrivers; [contradiction | reflexivity]).
  destruct (Nat.eqb_spec (setSize (gridPositions customDrivers))
              (length (gridPositions customDrivers))) as [Hs | Hs]; simpl;
    [|reflexivity].
  apply setSize_NoDup in Hs. contradiction.
Qed.

Lemma removeFrom_after (X : Type) (xs : list X) :
  forall index i, (index < i)%nat -> removeFrom index i xs = xs.
Proof.
  induction xs as [|x xs IH]; intros index i Hi; simpl; [reflexivity|].
  destruct (Nat.eqb_spec i index); [lia|]. rewrite IH; [reflexivity | lia].
Qed.

Lemma removeFrom_split (X : Type) (xs : list X) :
  forall index i,
    (i <= index)%nat ->
    removeFrom index i xs
    = firstn (index - i) xs ++ skipn (S (index - i)) xs.
Proof.
  induction xs as [|x xs IH]; intros index i Hi; simpl.
  - now rewrite firstn_nil.
  - destruct (Nat.eqb_spec i index) as [-> | Hne].
    + rewrite Nat.sub_diag. simpl. apply removeFrom_after. lia.
    + rewrite IH by lia.
      replace (index - i)%nat with (S (index - S i)) by lia.
      reflexivity.
Qed.

Lemma removeDriver_split (index : nat)
  (customDrivers : list CustomDriver.t) :
  removeDriver index customDrivers
  = firstn index customDrivers ++ skipn (S index) customDrivers.
Proof.
  unfold removeDriver. rewrite removeFrom_split by lia.
  now rewrite Nat.sub_0_r.
Qed.

Section RemoveThenAdd.

Variable toUpperCase : jsstring -> jsstring.


End RemoveThenAdd.

(** ** The circuits of [DriverProfilePage] *)

Lemma in_firstn (X : Type) (n : nat) (xs : list X) (x : X) :
  In x (firstn n xs) -> In x xs.
Proof.
  intros H. rewrite <- (firstn_skipn n xs). apply in_or_app. now left.
Qed.

(** X22.  The chart of the circuits has at most 10 bars; the label of a
    bar is the name of the circuit when it has at most 15 code units, and
    otherwise its first 15 code units followed by three dots, so a label
    never has more than 18. *)
Theorem circuitData_labels
  (performance_by_circuit : option (list CircuitPerformance.t)) :
  (length (circuitData performance_by_circuit) <= 10)%nat /\
  forall bar,
    In bar (circuitData performance_by_circuit) ->
    (length (CircuitBar.circuit bar) <= 18)%nat /\
    exists c,
      In c (match performance_by_circuit with
            | Some cs => cs
            | None => []
            end) /\
      CircuitBar.avg_position bar = CircuitPerformance.avg_position c /\
      CircuitBar.races bar = CircuitPerformance.races c /\
      ((length (CircuitPerformance.circuit c) <= 15)%nat /\
       CircuitBar.circuit bar = CircuitPerformance.circuit c \/
       (15 < length (CircuitPerformance.circuit c))%nat /\
       CircuitBar.circuit bar
       = firstn 15 (CircuitPerformance.circuit c) ++ str "...").
Proof.
  unfold circuitData, slice0, substring0. split.
  - rewrite length_map. apply firstn_le_length.
  - intros bar Hbar. apply in_map_iff in Hbar as [c [<- Hc]].
    apply in_firstn in Hc.
    cbn [CircuitBar.circuit CircuitBar.avg_position CircuitBar.races].
    destruct (Nat.ltb_spec 15 (length (CircuitPerformance.circuit c)))
      as [Hlong | Hshort].
    + split.
      * rewrite length_app, length_firstn.
        change (length (str "...")) with 3%nat. lia.
      * exists c. auto 6.
    + split; [lia|]. exists c. auto 6.
Qed.

(** ** Instances *)

(** A race known by its location only, one known by its country only, and
    the comparison of the scenario against an empty list of results. *)
Definition raceAtMonza : RaceInfo :=
  mkRaceInfo 1 [] [] [] (str "MONZA") (str "Italy") 1 [] 2024.

Definition raceInItaly : RaceInfo :=
  mkRaceInfo 1 [] [] [] [] (str "ITALY") 1 [] 2024.

Definition scenarioEmptyResults : ComparisonData :=
  mkComparisonData 1 (str "Race") scenarioPredictions (Some []) None.

Definition lineupOfTwo : list CustomDriver.t :=
  [ CustomDriver.mk (str "max_verstappen") (SString (str "VER"))
      (str "Red Bull Racing") 1 None;
    CustomDriver.mk (str "lando_norris") (SString (str "NOR"))
      (str "McLaren") 2 None ].

Definition driverVerstappen : Driver.t :=
  Driver.mk (str "max_verstappen") (str "Max Verstappen") 200 60
    (Some (str "Red Bull Racing")).

Lemma findKey_Some_matches_witness :
  findKey toLowerCaseLatin1 (str "Silverstone GP") CIRCUIT_COORDINATES
    = Some (coords 52.071 (-1.016)) /\
  str "Silverstone GP" <> [] /\
  exists key,
    In (key, coords 52.071 (-1.016)) CIRCUIT_COORDINATES /\
    matchesKey toLowerCaseLatin1 (str "Silverstone GP") key = true.
Proof.
  split; [reflexivity|].
  apply (findKey_Some_matches toLowerCaseLatin1 (str "Silverstone GP")
           CIRCUIT_COORDINATES (coords 52.071 (-1.016))).
  reflexivity.
Defined.

Lemma getRaceCoordinates_exact_location_match_witness :
  findKey toLowerCaseLatin1 (circuit raceAtMonza) CIRCUIT_COORDINATES = None /\
  In (str "Monza", coords 45.620556 9.289444) CIRCUIT_COORDINATES /\
  toLowerCaseLatin1 (location raceAtMonza) = toLowerCaseLatin1 (str "Monza") /\
  getRaceCoordinates toLowerCaseLatin1 raceAtMonza
    = VCoords (coords 45.620556 9.289444).
Proof.
  assert (In (str "Monza", coords 45.620556 9.289444) CIRCUIT_COORDINATES)
    as Hin.
  { unfold CIRCUIT_COORDINATES.
    repeat (first [left; reflexivity | right]). }
  split; [reflexivity|]. split; [exact Hin|]. split; [reflexivity|].
  apply (getRaceCoordinates_exact_location_match toLowerCaseLatin1
           (fun s _ => eq_refl) raceAtMonza (str "Monza")
           (coords 45.620556 9.289444) eq_refl Hin).
  reflexivity.
Defined.

Lemma getRaceCoordinates_country_up_to_case_witness :
  findKey toLowerCaseLatin1 (circuit raceInItaly) CIRCUIT_COORDINATES = None /\
  findKey toLowerCaseLatin1 (location raceInItaly) CIRCUIT_COORDINATES
    = None /\
  In (str "Italy", coords 44.3439 11.7167) COUNTRY_COORDINATES /\
  toLowerCaseLatin1 (country raceInItaly) = toLowerCaseLatin1 (str "Italy") /\
  getRaceCoordinates toLowerCaseLatin1 raceInItaly
    = VCoords (coords 44.3439 11.7167).
Proof.
  assert (In (str "Italy", coords 44.3439 11.7167) COUNTRY_COORDINATES)
    as Hin.
  { unfold COUNTRY_COORDINATES.
    repeat (first [left; reflexivity | right]). }
  split; [reflexivity|]. split; [reflexivity|]. split; [exact Hin|].
  split; [reflexivity|].
  apply (getRaceCoordinates_country_up_to_case toLowerCaseLatin1
           (fun s _ => eq_refl) raceInItaly (str "Italy")
           (coords 44.3439 11.7167) eq_refl eq_refl Hin).
  reflexivity.
Defined.


Lemma no_match_shows_no_section_witness :
  actual_results scenarioEmptyResults = Some [] /\
  showScatterPlot scenarioEmptyResults = false /\
  showComparisonTable scenarioEmptyResults = false /\
  showPredictionsOnly scenarioEmptyResults = false /\
  showNoPredictions scenarioEmptyResults = false.
Proof.
  split; [reflexivity|].
  apply (no_match_shows_no_section scenarioEmptyResults []);
    [reflexivity | discriminate | intros pred a _ []].
Defined.


(** ** Results with a repeated driver *)

(** X23.  When several results carry the identifier of a prediction, the
    first of them in the list is the one compared; [null] entries and the
    results after it play no part. *)
Theorem findActual_first_match (before after : list (option ActualResult.t))
  (actual : ActualResult.t) (pred : DriverPrediction.t) :
  (forall a, In (Some a) before ->
             ActualResult.driverRef a <> DriverPrediction.driverRef pred) ->
  ActualResult.driverRef actual = DriverPrediction.driverRef pred ->
  findActual (before ++ Some actual :: after) pred = Some actual.
Proof.
  intros Hno Href. unfold findActual.
  induction before as [|[a|] before IH]; simpl.
  - rewrite Href, eqb_refl. reflexivity.
  - rewrite (proj2 (eqb_neq _ _) (Hno a (or_introl eq_refl))).
    apply IH. intros a' Ha'. apply Hno. now right.
  - apply IH. intros a' Ha'. apply Hno. now right.
Qed.

Lemma findActual_first_match_witness :
  ActualResult.driverRef (ActualResult.mk (str "A") (str "A") (str "T") 2 None)
  = DriverPrediction.driverRef
      (DriverPrediction.mk (str "A") (str "A") (str "T") 1 None) /\
  findActual
    ([None; Some (ActualResult.mk (str "B") (str "B") (str "T") 1 None)] ++
     Some (ActualResult.mk (str "A") (str "A") (str "T") 2 None)
     :: [Some (ActualResult.mk (str "A") (str "A") (str "T") 5 None)])
    (DriverPrediction.mk (str "A") (str "A") (str "T") 1 None)
  = Some (ActualResult.mk (str "A") (str "A") (str "T") 2 None).
Proof.
  split; [reflexivity|].
  apply (findActual_first_match
           [None; Some (ActualResult.mk (str "B") (str "B") (str "T") 1 None)]
           [Some (ActualResult.mk (str "A") (str "A") (str "T") 5 None)]);
    [|reflexivity].
  intros a [H | [H | []]]; [discriminate H|].
  injection H as <-. vm_compute. discriminate.
Defined.

Lemma clampGridPosition_range_witness :
  (0 <= 0)%Z /\ clampGridPosition (Some 0%Z) = 1%Z /\
  (1 <= 7 <= 20)%Z /\ clampGridPosition (Some 7%Z) = 7%Z /\
  (20 < 35)%Z /\ clampGridPosition (Some 35%Z) = 20%Z.
Proof.
  split; [lia|]. split.
  { apply (proj2 (proj2 (clampGridPosition_range (Some 0%Z))) 0%Z eq_refl).
    lia. }
  split; [lia|]. split.
  { apply (proj2 (proj2 (clampGridPosition_range (Some 7%Z))) 7%Z eq_refl).
    lia. }
  split; [lia|].
  apply (proj2 (proj2 (clampGridPosition_range (Some 35%Z))) 35%Z eq_refl).
  lia.
Defined.

Lemma initialDrivers_valid_witness :
  gridPositions (initialDrivers (map upperUnit) (Some [driverVerstappen]))
    = [1%Z] /\
  exists body,
    handlePredict ModeCustom None
      (initialDrivers (map upperUnit) (Some [driverVerstappen])) [] None
    = PostCustom body.
Proof.
  split; [reflexivity|].
  apply (initialDrivers_valid (map upperUnit) (Some [driverVerstappen])).
  intros H. vm_compute in H. discriminate H.
Defined.

Lemma addDriver_keeps_lineup_valid_witness :
  length
    (addDriver (map upperUnit)
       ([driverVerstappen] ++
        Driver.mk (str "oscar_piastri") (str "Oscar Piastri") 50 5 None
        :: [])
       lineupOfTwo)
  = 3%nat /\
  gridPositions lineupOfTwo = gridOrder (length lineupOfTwo) /\
  gridPositions
    (addDriver (map upperUnit)
       [driverVerstappen;
        Driver.mk (str "oscar_piastri") (str "Oscar Piastri") 50 5 None]
       lineupOfTwo)
  = gridOrder
      (length
         (addDriver (map upperUnit)
            [driverVerstappen;
             Driver.mk (str "oscar_piastri") (str "Oscar Piastri") 50 5 None]
            lineupOfTwo)).
Proof.
  split.
  { apply (proj1 (addDriver_keeps_lineup_valid (map upperUnit)
                    ([driverVerstappen] ++
                     Driver.mk (str "oscar_piastri") (str "Oscar Piastri")
                       50 5 None :: [])
                    lineupOfTwo)
             [driverVerstappen]
             (Driver.mk (str "oscar_piastri") (str "Oscar Piastri") 50 5 None)
             [] eq_refl).
    - intros x [<- | []]. left. reflexivity.
    - vm_compute. intros [H | [H | []]]; discriminate H. }
  split; [reflexivity|].
  apply (addDriver_keeps_lineup_valid (map upperUnit)
           [driverVerstappen;
            Driver.mk (str "oscar_piastri") (str "Oscar Piastri") 50 5 None]
           lineupOfTwo).
  reflexivity.
Defined.
